(** * Memory engine of the QA chatbot ([model.py])

    A shallow embedding of the prompt-assembly and retrieval core of
    [model.py]: the token-budgeted selectors, the FAISS-backed question/answer
    store, the retention heuristic, the prompt assembler and the post-response
    update, followed by the properties established about them.

    Conventions of the embedding.
    - Python [str] values are [string]s of 8-bit characters; [strip], [split]
      and [lower] act on the ASCII range as Python's do.
    - A message is a Python [dict] from [str] to [str]: a [gmap string string].
    - Python exceptions are values of [exn]; a call that may raise returns a
      [result].
    - The tokenizer (tiktoken), the embedding endpoint, the chat endpoint and
      the database layer are collaborators: section variables. A call to one
      of them returns or raises, the tokenizer included: [encoding.encode]
      raises [ValueError] on a text that holds a special token.
    - The components of an embedding vector are [float32] numbers, and [faiss]
      computes on them in [float32]. Nothing is assumed of this arithmetic:
      the type of the numbers and the operations that [faiss] applies to them
      are the fields of the class [faiss.Arithmetic]. *)

From Stdlib Require Import ZArith Lia Ascii Floats.
From stdpp Require Import gmap strings list pretty.

(** ** Exceptions *)

(** The exceptions of the engine's own calls, [ValueError] for the tokenizer,
    and [UpstreamError] for what another collaborator (database, embedding
    endpoint, chat endpoint) may raise. *)
Inductive exn : Type :=
| AssertionError
| KeyError
| IndexError
| ValueError
| UpstreamError.

Inductive result (A : Type) : Type :=
| Ok (a : A)
| Raise (e : exn).
Arguments Ok {A} a.
Arguments Raise {A} e.

#[global] Instance result_ret : MRet result := fun _ a => Ok a.
#[global] Instance result_bind : MBind result := fun _ _ f m =>
  match m with
  | Ok a => f a
  | Raise e => Raise e
  end.

(** ** Python primitives used by [model.py] *)

Module py.

(** [str.isspace] on one character of the ASCII range: TAB, LF, VT, FF, CR,
    the four separators 0x1c-0x1f and the space. *)
Definition isspace (c : ascii) : bool :=
  let n := nat_of_ascii c in
  ((9 <=? n)%nat && (n <=? 13)%nat) || ((28 <=? n)%nat && (n <=? 32)%nat).

Fixpoint lstrip (s : string) : string :=
  match s with
  | EmptyString => EmptyString
  | String c s' => if isspace c then lstrip s' else s
  end.

Definition rstrip (s : string) : string := String.rev (lstrip (String.rev s)).

(** [s.strip()] *)
Definition strip (s : string) : string := rstrip (lstrip s).

Definition lower_char (c : ascii) : ascii :=
  let n := nat_of_ascii c in
  if (65 <=? n)%nat && (n <=? 90)%nat then ascii_of_nat (n + 32) else c.

(** [s.lower()] *)
Fixpoint lower (s : string) : string :=
  match s with
  | EmptyString => EmptyString
  | String c s' => String (lower_char c) (lower s')
  end.

(** [s.startswith(p)] *)
Definition startswith (s p : string) : bool := String.prefix p s.

(** The loop of [s.split()]: [cur] is the word being read. *)
Fixpoint split_go (cur : string) (s : string) : list string :=
  match s with
  | EmptyString => if String.eqb cur "" then [] else [cur]
  | String c s' =>
      if isspace c
      then (if String.eqb cur "" then split_go "" s' else cur :: split_go "" s')
      else split_go (cur +:+ String c "") s'
  end.

(** [s.split()]: the maximal runs of non-whitespace characters. *)
Definition split (s : string) : list string := split_go "" s.

(** [sep.join(parts)] *)
Fixpoint join (sep : string) (parts : list string) : string :=
  match parts with
  | [] => ""
  | [p] => p
  | p :: rest => p +:+ sep +:+ join sep rest
  end.

(** [l[i]] for a Python [int] [i]: a negative index counts from the end, an
    index out of range raises [IndexError]. *)
Definition getitem {A : Type} (l : list A) (i : Z) : result A :=
  let n := Z.of_nat (length l) in
  let j := if (i <? 0)%Z then (i + n)%Z else i in
  if (0 <=? j)%Z && (j <? n)%Z
  then match l !! Z.to_nat j with
       | Some x => Ok x
       | None => Raise IndexError
       end
  else Raise IndexError.

(** [d[key]] on a dict: [KeyError] when the key is absent. *)
Definition dict_getitem (d : gmap string string) (key : string) : result string :=
  match d !! key with
  | Some v => Ok v
  | None => Raise KeyError
  end.

(** [d.get(key, default)] *)
Definition dict_get (d : gmap string string) (key default : string) : string :=
  match d !! key with
  | Some v => v
  | None => default
  end.

End py.

(** The line feed character of the f-strings. *)
Definition LF : string := String (ascii_of_nat 10) EmptyString.

(** ** The part of [faiss] that the store calls

    [IndexFlatIP] keeps the vectors it was given and answers a query by
    exhaustive inner product. The Python wrapper of [add] and [search]
    asserts that the width of the array equals the dimension of the index, and
    that the number of neighbours asked for is positive. Vectors are rows of
    finite numbers; among stored vectors of equal score the one added first is
    reported first. *)

Module faiss.

(** The [float32] numbers and what [faiss] computes on them: the comparison
    [a < b], the product [a * b], [1.0 / sqrtf(nr)], and the two kernels
    [fvec_norm_L2sqr] and [fvec_inner_product], whose results depend on the
    order of the sums and on the instructions of the machine. *)
Class Arithmetic : Type := {
  float32 : Type;
  zero : float32;
  lt : float32 -> float32 -> bool;
  mul : float32 -> float32 -> float32;
  inv_sqrt : float32 -> float32;
  fvec_norm_L2sqr : list float32 -> float32;
  fvec_inner_product : list float32 -> list float32 -> float32
}.

Section Index.

Context {arith : Arithmetic}.

(** [normalize_L2] of a one-row matrix, in place ([fvec_renorm_L2]): when the
    squared norm [nr] of the row is positive every component is multiplied by
    [1.0 / sqrtf(nr)]; otherwise the row is left as it is. *)
Definition normalize_L2 (x : list float32) : list float32 :=
  let nr := fvec_norm_L2sqr x in
  if lt zero nr
  then
    let inv_nr := inv_sqrt nr in
    map (fun c => mul c inv_nr) x
  else x.

Record IndexFlatIP : Type := mkIndexFlatIP {
  d : nat;
  xb : list (list float32)
}.

Definition new (dim : nat) : IndexFlatIP := mkIndexFlatIP dim [].

Definition ntotal (index : IndexFlatIP) : nat := length (xb index).

(** [index.add(x)] for a one-row [x]. *)
Definition add (index : IndexFlatIP) (x : list float32) : result IndexFlatIP :=
  if Nat.eqb (length x) (d index)
  then Ok (mkIndexFlatIP (d index) (xb index ++ [x]))
  else Raise AssertionError.

(** Insertion of a scored position into a list ordered by decreasing score;
    the new position goes in front of the positions that score no more. *)
Fixpoint insert_by_score (p : nat * float32) (l : list (nat * float32))
    : list (nat * float32) :=
  match l with
  | [] => [p]
  | h :: t =>
      if lt (snd p) (snd h) then h :: insert_by_score p t else p :: h :: t
  end.

(** Positions [base], [base+1], ... of the stored vectors, ordered by
    decreasing inner product with [q]; among equal scores the earlier position
    comes first. *)
Fixpoint rank_from (base : nat) (q : list float32) (vectors : list (list float32))
    : list (nat * float32) :=
  match vectors with
  | [] => []
  | x :: rest =>
      insert_by_score (base, fvec_inner_product q x) (rank_from (S base) q rest)
  end.

Definition ranked (index : IndexFlatIP) (q : list float32) : list nat :=
  map fst (rank_from 0 q (xb index)).

(** [index.search(q, k)] for a one-row [q]: the labels of the [k] best
    vectors, best first, padded with [-1] when fewer than [k] are stored. *)
Definition search (index : IndexFlatIP) (q : list float32) (k : Z) : result (list Z) :=
  if negb (Nat.eqb (length q) (d index)) then Raise AssertionError
  else if (k <=? 0)%Z then Raise AssertionError
  else
    let best := take (Z.to_nat k) (ranked index q) in
    Ok (map Z.of_nat best ++ replicate (Z.to_nat k - length best) (-1)%Z).

End Index.

End faiss.

(** ** [FaissQAVectorStore] *)

Section Store.

Context {arith : faiss.Arithmetic}.

Record FaissQAVectorStore : Type := mkStore {
  _questions : list string;
  _answers : list string;
  _index : option faiss.IndexFlatIP;
  _dim : option nat
}.

(** [FaissQAVectorStore.__init__] *)
Definition store_init : FaissQAVectorStore := mkStore [] [] None None.

(** [FaissQAVectorStore.add]: the store after the call and its outcome. When
    [index.add] raises, the two text lists have not been appended to. After
    the lazy initialization the index is never [None]: the first branch of the
    second [match] is there for the type only. *)
Definition store_add (self : FaissQAVectorStore) (question answer : string)
    (embedding : list faiss.float32) : FaissQAVectorStore * result unit :=
  let emb := embedding in
  let self1 :=
    match _index self with
    | None =>
        mkStore (_questions self) (_answers self)
                (Some (faiss.new (length emb))) (Some (length emb))
    | Some _ => self
    end in
  let emb := faiss.normalize_L2 emb in
  match _index self1 with
  | None => (self1, Raise AssertionError)
  | Some index =>
      match faiss.add index emb with
      | Raise e => (self1, Raise e)
      | Ok index' =>
          (mkStore (_questions self1 ++ [question]) (_answers self1 ++ [answer])
                   (Some index') (_dim self1), Ok tt)
      end
  end.

(** [FaissQAVectorStore.is_empty] *)
Definition store_is_empty (self : FaissQAVectorStore) : bool :=
  match _index self with
  | None => true
  | Some index => Nat.eqb (faiss.ntotal index) 0
  end.

(** [FaissQAVectorStore.search]; it leaves the store as it is. A store that
    is not empty has an index: the [None] branch is there for the type only. *)
Definition store_search (self : FaissQAVectorStore)
    (query_embedding : list faiss.float32) (top_k : Z)
    : result (list (string * string)) :=
  if store_is_empty self then Ok []
  else
    match _index self with
    | None => Ok []
    | Some index =>
        let q := faiss.normalize_L2 query_embedding in
        let k := Z.min top_k (Z.of_nat (faiss.ntotal index)) in
        indices ← faiss.search index q k;
        mapM (fun idx : Z =>
                q_text ← py.getitem (_questions self) idx;
                a_text ← py.getitem (_answers self) idx;
                mret (q_text, a_text)) indices
    end.

(** The size of the index of a store; a store whose index is still [None]
    holds no vector. *)
Definition store_ntotal (self : FaissQAVectorStore) : nat :=
  match _index self with
  | None => 0
  | Some index => faiss.ntotal index
  end.

(** The calls a client can make on a store, and the store they leave behind;
    an exception raised by a call does not undo what the call did before. *)
Inductive store_call : Type :=
| CallAdd (question answer : string) (embedding : list faiss.float32)
| CallSearch (query_embedding : list faiss.float32) (top_k : Z).

Definition store_step (self : FaissQAVectorStore) (c : store_call) : FaissQAVectorStore :=
  match c with
  | CallAdd q a e => fst (store_add self q a e)
  | CallSearch _ _ => self
  end.

Definition store_run (calls : list store_call) : FaissQAVectorStore :=
  fold_left store_step calls store_init.

(** The index and the two text lists of a store have the same size. *)
Definition store_consistent (self : FaissQAVectorStore) : Prop :=
  store_ntotal self = length (_questions self)
  /\ length (_questions self) = length (_answers self).

(** The store has an index, of dimension [n]. *)
Definition store_dimension (self : FaissQAVectorStore) (n : nat) : Prop :=
  exists index, _index self = Some index /\ faiss.d index = n /\ _dim self = Some n.

(** The call that adds one entry (question, answer, embedding). *)
Definition add_entry (entry : string * string * list faiss.float32) : store_call :=
  CallAdd (fst (fst entry)) (snd (fst entry)) (snd entry).

(** The calls that are searches. *)
Definition is_search (c : store_call) : Prop :=
  match c with
  | CallAdd _ _ _ => False
  | CallSearch _ _ => True
  end.


End Store.

(** ** Retention heuristic *)

Definition small_talk_prefixes : list string :=
  [ "hi"; "hello"; "hey"; "good morning"; "good evening";
    "thanks"; "thank you"; "ok"; "okay"; "bye"; "goodbye" ].

Definition should_store_in_vector_memory (question answer : string) : bool :=
  let q_lower := py.lower (py.strip question) in
  if existsb (fun p => py.startswith q_lower p) small_talk_prefixes then false
  else if (length (py.split question) <? 4)%nat || (length (py.split answer) <? 6)%nat then false
  else true.

(** ** Collaborators used to run the engine on concrete inputs

    A tokenizer that charges one token per character and refuses a text that
    holds the special token [<|endoftext|>], the floating-point numbers of the
    machine for the arithmetic of [faiss], an embedding endpoint that always
    answers, and a message table kept in memory. The message table returns
    rows with the three columns that [database.get_messages] selects. *)

Module InMemory.

(** [needle in s] *)
Fixpoint contains (needle s : string) : bool :=
  String.prefix needle s
  || match s with
     | EmptyString => false
     | String _ s' => contains needle s'
     end.

Definition count_tokens (text : string) : result nat :=
  if contains "<|endoftext|>" text then Raise ValueError
  else Ok (String.length text).

Definition arithmetic : faiss.Arithmetic := {|
  faiss.float32 := PrimFloat.float;
  faiss.zero := 0%float;
  faiss.lt := PrimFloat.ltb;
  faiss.mul := PrimFloat.mul;
  faiss.inv_sqrt := fun nr => PrimFloat.div 1%float (PrimFloat.sqrt nr);
  faiss.fvec_norm_L2sqr := fun x =>
    foldl (fun sum c => PrimFloat.add sum (PrimFloat.mul c c)) 0%float x;
  faiss.fvec_inner_product := fun x y =>
    foldl PrimFloat.add 0%float (zip_with PrimFloat.mul x y)
|}.

Definition embed_text (text : string) : result (list (@faiss.float32 arithmetic)) :=
  Ok [Nat.iter (String.length text) (PrimFloat.add 1%float) 0%float; 1%float].

(** One row of the [messages] table: the conversation it belongs to and the
    dictionary that the cursor returns for it. *)
Definition DB : Type := list (string * gmap string string).

Definition get_messages (conversation_id : string) (db : DB)
    : result (list (gmap string string)) :=
  Ok (map snd (filter (fun row => bool_decide (fst row = conversation_id)) db)).

Definition add_message (conversation_id role content : string) (db : DB)
    : DB * result unit :=
  (db ++ [(conversation_id,
           {[ "role" := role; "content" := content; "timestamp" := "" ]})],
   Ok tt).

End InMemory.

#[global] Existing Instance InMemory.arithmetic.
#[warnings="-projection-no-head-constant"]
Canonical Structure InMemory.arithmetic.

(** Two entries for one question asked twice: one embedding, two answers. *)
Definition twin_entries : list (string * string * list faiss.float32) :=
  [ ("What is FAISS used for?", "It is a vector index.", [3%float; 4%float]);
    ("What is FAISS used for?", "It searches embeddings by similarity.",
     [3%float; 4%float]) ].

(** ** The database layer ([database.py])

    The two tables are lists of rows in the order of insertion, with the
    columns that [database.py] names. What belongs to the schema and to the
    server, and not to [database.py], is a parameter or is said here:
    - whether [messages.conversation_id] is a foreign key, and what it does
      on [DELETE], is the parameter [ForeignKey];
    - a connection attempt either fails ([get_db_connection] returns [None])
      or gives a connection, at a server time that stands for
      [CURRENT_TIMESTAMP] in its statements: a [Connection];
    - the columns [updated_at] and [timestamp] of a new row take the server
      time; an [ORDER BY] keeps rows of equal key in table order;
    - a datetime is shown by its number in the dictionaries of the cursor. *)

Module Database.

Inductive ForeignKey : Type :=
| NoForeignKey
| Restrict
| Cascade.

Definition Connection : Type := option nat.

Record conversation_row : Type := mkConversation {
  conversation_id : string;
  title : string;
  updated_at : nat
}.

Record message_row : Type := mkMessage {
  message_conversation_id : string;
  role : string;
  content : string;
  timestamp : nat
}.

Record Tables : Type := mkTables {
  conversations : list conversation_row;
  messages : list message_row
}.

Definition empty_tables : Tables := mkTables [] [].

#[global] Instance conversation_row_eq_dec : EqDecision conversation_row.
Proof. solve_decision. Defined.

(** [WHERE conversation_id = %s] on each table. *)
Definition of_conversation (cid : string) (m : message_row) : bool :=
  String.eqb (message_conversation_id m) cid.

Definition is_conversation (cid : string) (c : conversation_row) : bool :=
  String.eqb (conversation_id c) cid.

(** [SELECT 1 FROM conversations WHERE conversation_id = %s], then
    [fetchone()] read as a truth value. *)
Definition conversation_exists (cid : string) (t : Tables) : bool :=
  existsb (is_conversation cid) (conversations t).

Definition DEFAULT_TITLE : string := "New Chat".

Definition ensure_conversation_exists (conn : Connection) (cid title : string)
    (t : Tables) : Tables :=
  match conn with
  | None => t
  | Some now =>
      if conversation_exists cid t then t
      else mkTables (conversations t ++ [mkConversation cid title now]) (messages t)
  end.

(** [create_conversation]; [uuid4] is the identifier that [uuid.uuid4()]
    draws. The identifier is returned also when the connection failed. *)
Definition create_conversation (uuid4 : string) (conn : Connection) (title : string)
    (t : Tables) : Tables * string :=
  let conversation_id := uuid4 in
  (ensure_conversation_exists conn conversation_id title t, conversation_id).

(** [ORDER BY c.updated_at DESC] and [ORDER BY timestamp ASC]. *)
Fixpoint insert_by_updated_at (c : conversation_row) (l : list conversation_row)
    : list conversation_row :=
  match l with
  | [] => [c]
  | c' :: l' =>
      if (updated_at c' <=? updated_at c)%nat then c :: c' :: l'
      else c' :: insert_by_updated_at c l'
  end.

Definition order_by_updated_at_desc (l : list conversation_row)
    : list conversation_row :=
  foldr insert_by_updated_at [] l.

Fixpoint insert_by_timestamp (m : message_row) (l : list message_row)
    : list message_row :=
  match l with
  | [] => [m]
  | m' :: l' =>
      if (timestamp m <=? timestamp m')%nat then m :: m' :: l'
      else m' :: insert_by_timestamp m l'
  end.

Definition order_by_timestamp_asc (l : list message_row) : list message_row :=
  foldr insert_by_timestamp [] l.

(** [list_conversations]: the join of the two tables on the conversation
    identifier, the distinct conversation rows of the join, newest first. *)
Definition list_conversations (conn : Connection) (t : Tables)
    : list conversation_row :=
  match conn with
  | None => []
  | Some _ =>
      let joined :=
        flat_map (fun c => map (fun _ => c)
                             (filter (fun m => of_conversation (conversation_id c) m)
                                     (messages t)))
                 (conversations t) in
      order_by_updated_at_desc (remove_dups joined)
  end.

(** [delete_conversation]. A restricting foreign key refuses the statement
    when a message refers to a deleted row; the exception is not caught. *)
Definition delete_conversation (fk : ForeignKey) (conn : Connection) (cid : string)
    (t : Tables) : Tables * result unit :=
  match conn with
  | None => (t, Ok tt)
  | Some _ =>
      let kept := filter (fun c => negb (is_conversation cid c)) (conversations t) in
      match fk with
      | NoForeignKey => (mkTables kept (messages t), Ok tt)
      | Restrict =>
          if conversation_exists cid t && existsb (of_conversation cid) (messages t)
          then (t, Raise UpstreamError)
          else (mkTables kept (messages t), Ok tt)
      | Cascade =>
          if conversation_exists cid t
          then (mkTables kept
                  (filter (fun m => negb (of_conversation cid m)) (messages t)),
                Ok tt)
          else (t, Ok tt)
      end
  end.

(** One row of the cursor of [get_messages]. *)
Definition message_dict (m : message_row) : gmap string string :=
  {[ "role" := role m; "content" := content m;
     "timestamp" := pretty (timestamp m) ]}.

Definition get_messages (conn : Connection) (cid : string) (t : Tables)
    : list (gmap string string) :=
  match conn with
  | None => []
  | Some _ =>
      map message_dict
        (order_by_timestamp_asc (filter (fun m => of_conversation cid m) (messages t)))
  end.

(** [content[:50] + "..." if len(content) > 50 else content] *)
Definition first_message_title (content : string) : string :=
  if (50 <? String.length content)%nat
  then String.substring 0 50 content +:+ "..."
  else content.

(** [UPDATE conversations SET ... WHERE conversation_id = %s] *)
Definition update_conversation (cid : string)
    (f : conversation_row -> conversation_row) (l : list conversation_row)
    : list conversation_row :=
  map (fun c => if is_conversation cid c then f c else c) l.

(** [add_message], with the connection of [ensure_conversation_exists] and
    its own. With a foreign key the insertion of a message for a conversation
    that does not exist is refused; the exception is not caught and nothing of
    the second connection is committed. *)
Definition add_message (fk : ForeignKey) (conn_ensure conn : Connection)
    (cid role content : string) (t : Tables) : Tables * result unit :=
  let t := ensure_conversation_exists conn_ensure cid DEFAULT_TITLE t in
  match conn with
  | None => (t, Ok tt)
  | Some now =>
      let refused :=
        match fk with
        | NoForeignKey => false
        | Restrict | Cascade => negb (conversation_exists cid t)
        end in
      if refused then (t, Raise UpstreamError)
      else
        let messages' := messages t ++ [mkMessage cid role content now] in
        let conversations' :=
          update_conversation cid
            (fun c => mkConversation (conversation_id c) (title c) now)
            (conversations t) in
        let conversations' :=
          if String.eqb role "user"
          then
            let count := length (filter (fun m => of_conversation cid m) messages') in
            if (count =? 1)%nat
            then
              let new_title := first_message_title content in
              update_conversation cid
                (fun c => mkConversation (conversation_id c) new_title (updated_at c))
                conversations'
            else conversations'
          else conversations' in
        (mkTables conversations' messages', Ok tt)
  end.

(** The calls of the database layer that write, and the tables that a
    sequence of calls leaves. *)
Inductive call : Type :=
| CallEnsure (conn : Connection) (cid title : string)
| CallCreate (uuid4 : string) (conn : Connection) (title : string)
| CallAddMessage (conn_ensure conn : Connection) (cid role content : string)
| CallDelete (conn : Connection) (cid : string).

Definition step (fk : ForeignKey) (t : Tables) (c : call) : Tables :=
  match c with
  | CallEnsure conn cid title => ensure_conversation_exists conn cid title t
  | CallCreate uuid4 conn title => fst (create_conversation uuid4 conn title t)
  | CallAddMessage conn_ensure conn cid role content =>
      fst (add_message fk conn_ensure conn cid role content t)
  | CallDelete conn cid => fst (delete_conversation fk conn cid t)
  end.

Definition run (fk : ForeignKey) (calls : list call) : Tables :=
  fold_left (step fk) calls empty_tables.

(** The title of a conversation, if it exists. *)
Definition title_of (cid : string) (t : Tables) : option string :=
  title <$> List.find (is_conversation cid) (conversations t).

End Database.

(** ** The engine, over its collaborators *)

Definition MAX_HISTORY_TOKENS : Z := 1200.
Definition MAX_VECTOR_QA_TOKENS : Z := 800.

Definition SYSTEM_INSTRUCTION : string :=
  "You are a concise, helpful QA assistant. " +:+
  "Answer the user's question clearly and accurately. " +:+
  "If you are unsure, say that you don't know.".

(** A message: a dictionary with (at least) the keys [role] and [content]. *)
Abbreviation Message := (gmap string string).

(** The dictionary [{"role": role, "content": content}]. *)
Definition turn (role content : string) : Message :=
  {[ "role" := role; "content" := content ]}.

(** A history as the database returns it: each row carries its timestamp. *)
Definition stamped_history : list Message :=
  [ {[ "role" := "user"; "content" := "hello";
       "timestamp" := "2024-05-01 10:00:00" ]} ].

Section Engine.

Context {arith : faiss.Arithmetic}.

(** [count_tokens]: [len(encoding.encode(text))], or the exception that
    [encoding.encode] raises: [ValueError] when the text holds a special
    token. *)
Variable count_tokens : string -> result nat.

(** The database layer: its state, [database.get_messages] and
    [database.add_message]. *)
Variable DB : Type.
Variable database_get_messages : string -> DB -> result (list Message).
Variable database_add_message : string -> string -> string -> DB -> DB * result unit.

(** [embed_text]: the call to the embedding endpoint. *)
Variable embed_text : string -> result (list faiss.float32).

(** The text [f"{role}: {content}\n"] that is charged for a message. *)
Definition message_text (msg : Message) : string :=
  let role := py.dict_get msg "role" "" in
  let content := py.dict_get msg "content" "" in
  role +:+ ": " +:+ content +:+ LF.

(** The [for msg in messages] loop of [count_message_list_tokens]. *)
Fixpoint count_message_list_tokens_loop (messages : list Message) (total : nat)
    : result nat :=
  match messages with
  | [] => Ok total
  | msg :: rest =>
      n ← count_tokens (message_text msg);
      count_message_list_tokens_loop rest (total + n)
  end.

Definition count_message_list_tokens (messages : list Message) : result nat :=
  count_message_list_tokens_loop messages 0.

(** The [for msg in reversed(history)] loop of
    [select_recent_messages_within_budget]. *)
Fixpoint select_recent_loop (reversed_history selected : list Message)
    (total_tokens : nat) (max_tokens : Z) : result (list Message) :=
  match reversed_history with
  | [] => Ok selected
  | msg :: rest =>
      msg_tokens ← count_message_list_tokens [msg];
      if (max_tokens <? Z.of_nat (total_tokens + msg_tokens))%Z then Ok selected
      else
        role ← py.dict_getitem msg "role";
        content ← py.dict_getitem msg "content";
        let clean_msg := turn role content in
        select_recent_loop rest (selected ++ [clean_msg])
                           (total_tokens + msg_tokens) max_tokens
  end.

Definition select_recent_messages_within_budget (history : list Message)
    (max_tokens : Z) : result (list Message) :=
  selected ← select_recent_loop (reverse history) [] 0 max_tokens;
  mret (reverse selected).

(** The text [f"Q: {q}\nA: {a}\n"] that is charged for a pair. *)
Definition pair_text (qa : string * string) : string :=
  "Q: " +:+ fst qa +:+ LF +:+ "A: " +:+ snd qa +:+ LF.

(** The [for q, a in qa_pairs] loop of [select_vector_qa_within_budget]. *)
Fixpoint select_vector_qa_loop (qa_pairs selected : list (string * string))
    (total_tokens : nat) (max_tokens : Z) : result (list (string * string)) :=
  match qa_pairs with
  | [] => Ok selected
  | (q, a) :: rest =>
      pair_tokens ← count_tokens (pair_text (q, a));
      if (max_tokens <? Z.of_nat (total_tokens + pair_tokens))%Z then Ok selected
      else select_vector_qa_loop rest (selected ++ [(q, a)])
                                 (total_tokens + pair_tokens) max_tokens
  end.

Definition select_vector_qa_within_budget (qa_pairs : list (string * string))
    (max_tokens : Z) : result (list (string * string)) :=
  select_vector_qa_loop qa_pairs [] 0 max_tokens.

(** What the module-level code of [model.py] and the database hold. *)
Record World : Type := mkWorld {
  database : DB;
  vector_store : FaissQAVectorStore
}.

(** A computation that reads and writes the world and may raise; what was
    written before an exception stays written. *)
Definition Eff (A : Type) : Type := World -> World * result A.

#[local] Instance Eff_ret : MRet Eff := fun _ a w => (w, Ok a).
#[local] Instance Eff_bind : MBind Eff := fun _ _ f m w =>
  match m w with
  | (w', Ok a) => f a w'
  | (w', Raise e) => (w', Raise e)
  end.

Definition lift {A : Type} (r : result A) : Eff A := fun w => (w, r).

Definition get_chat_history (conversation_id : string) : Eff (list Message) :=
  fun w => (w, database_get_messages conversation_id (database w)).

Definition add_message (conversation_id role content : string) : Eff unit :=
  fun w =>
    let (db', r) := database_add_message conversation_id role content (database w) in
    (mkWorld db' (vector_store w), r).

Definition vector_store_is_empty : Eff bool :=
  fun w => (w, Ok (store_is_empty (vector_store w))).

Definition vector_store_search (query_embedding : list faiss.float32) (top_k : Z)
    : Eff (list (string * string)) :=
  fun w => (w, store_search (vector_store w) query_embedding top_k).

Definition vector_store_add (question answer : string)
    (embedding : list faiss.float32) : Eff unit :=
  fun w =>
    let (store', r) := store_add (vector_store w) question answer embedding in
    (mkWorld (database w) store', r).

Definition build_vector_memory_context (question : string)
    : Eff (list (string * string)) :=
  empty ← vector_store_is_empty;
  if (empty : bool) then mret []
  else
    query_emb ← lift (embed_text question);
    retrieved ← vector_store_search query_emb 5;
    lift (select_vector_qa_within_budget retrieved MAX_VECTOR_QA_TOKENS).

(** The lines that the [enumerate(qa_context, start=1)] loop appends. *)
Fixpoint qa_text_lines_from (idx : nat) (qa_context : list (string * string))
    : list string :=
  match qa_context with
  | [] => []
  | (q, a) :: rest =>
      ("Q" +:+ pretty idx +:+ ": " +:+ q)
        :: ("A" +:+ pretty idx +:+ ": " +:+ a)
        :: "" :: qa_text_lines_from (S idx) rest
  end.

Definition qa_context_message (qa_context : list (string * string)) : Message :=
  let qa_text_lines :=
    "Here are some relevant previous Q&A you have given:"
      :: qa_text_lines_from 1 qa_context in
  turn "system" (py.strip (py.join LF qa_text_lines)).

Definition build_messages_for_model (conversation_id question : string)
    : Eff (list Message) :=
  history ← get_chat_history conversation_id;
  let messages := [turn "system" SYSTEM_INSTRUCTION] in
  qa_context ← build_vector_memory_context question;
  let messages :=
    match qa_context with
    | [] => messages
    | _ :: _ => messages ++ [qa_context_message qa_context]
    end in
  recent_history ← lift (select_recent_messages_within_budget history MAX_HISTORY_TOKENS);
  let messages := messages ++ recent_history in
  mret (messages ++ [turn "user" question]).

Definition update_memories_after_response (conversation_id question answer : string)
    : Eff unit :=
  _ ← add_message conversation_id "user" question;
  _ ← add_message conversation_id "assistant" answer;
  if should_store_in_vector_memory question answer
  then
    q_emb ← lift (embed_text question);
    vector_store_add question answer q_emb
  else mret tt.

(** [client.chat.completions.create(model=MODEL_NAME, messages=messages,
    temperature=0)], read at [choices[0].message.content]. *)
Variable chat_completions_create : list Message -> result string.

Definition call_model (messages : list Message) : Eff string :=
  content ← lift (chat_completions_create messages);
  mret (py.strip content).

Definition ask_question (question conversation_id : string) : Eff string :=
  messages ← build_messages_for_model conversation_id question;
  answer ← call_model messages;
  _ ← update_memories_after_response conversation_id question answer;
  mret answer.

(** What the engine expects of the database layer: a message that was added
    is returned, after the messages the conversation had, by the next fetch of
    the conversation. *)
Definition database_appends : Prop :=
  forall conversation_id role content db db' history,
    database_add_message conversation_id role content db = (db', Ok tt) ->
    database_get_messages conversation_id db = Ok history ->
    exists row : Message,
      database_get_messages conversation_id db' = Ok (history ++ [row])
      /\ row !! "role" = Some role
      /\ row !! "content" = Some content.

(** *** Closed forms of the loops, used to reason about them *)

(** A text that the tokenizer encodes, and its number of tokens ([0] stands
    for the number of tokens of a text that the tokenizer refuses). *)
Definition encodable (text : string) : Prop :=
  exists n, count_tokens text = Ok n.

Definition tokens (text : string) : nat :=
  match count_tokens text with
  | Ok n => n
  | Raise _ => 0
  end.

(** Token cost that the message loops charge for one message, and for a
    list of messages. *)
Definition message_tokens (msg : Message) : nat := tokens (message_text msg).

Definition messages_tokens (messages : list Message) : nat :=
  sum_list (map message_tokens messages).

(** Token cost that the pair loop charges for one pair. *)
Definition pair_tokens (qa : string * string) : nat := tokens (pair_text qa).

Definition pairs_tokens (qa_pairs : list (string * string)) : nat :=
  sum_list (map pair_tokens qa_pairs).

(** The pairs that pass the budget test, when [total_tokens] are already
    spent. *)
Fixpoint pairs_within (qa_pairs : list (string * string)) (total_tokens : nat)
    (max_tokens : Z) : list (string * string) :=
  match qa_pairs with
  | [] => []
  | qa :: rest =>
      if (max_tokens <? Z.of_nat (total_tokens + pair_tokens qa))%Z then []
      else qa :: pairs_within rest (total_tokens + pair_tokens qa) max_tokens
  end.

(** The copy [{"role": msg["role"], "content": msg["content"]}]. *)
Definition clean_copy (msg : Message) : result Message :=
  role ← py.dict_getitem msg "role";
  content ← py.dict_getitem msg "content";
  mret (turn role content).

(** A message that carries the two keys the selector reads. *)
Definition has_role_content (msg : Message) : Prop :=
  is_Some (msg !! "role") /\ is_Some (msg !! "content").

(** The messages, newest first, that pass the budget test. *)
Fixpoint recent_within (reversed_history : list Message) (total_tokens : nat)
    (max_tokens : Z) : list Message :=
  match reversed_history with
  | [] => []
  | msg :: rest =>
      let msg_tokens := messages_tokens [msg] in
      if (max_tokens <? Z.of_nat (total_tokens + msg_tokens))%Z then []
      else msg :: recent_within rest (total_tokens + msg_tokens) max_tokens
  end.

(** The tokenizer encodes the texts of the turns that the selector reads: the
    ones that pass the budget test and the one at which the scan stops. *)
Definition reads_encodable (reversed_history : list Message) (total_tokens : nat)
    (max_tokens : Z) : Prop :=
  Forall (fun msg => encodable (message_text msg))
    (recent_within reversed_history total_tokens max_tokens)
  /\ (forall msg rest,
        reversed_history
        = recent_within reversed_history total_tokens max_tokens ++ msg :: rest ->
        encodable (message_text msg)).

(** * Properties *)

(** ** The store *)

Lemma length_normalize_L2 (x : list faiss.float32) :
  length (faiss.normalize_L2 x) = length x.
Proof.
  unfold faiss.normalize_L2. destruct (faiss.lt _ _); [apply length_map | reflexivity].
Qed.

Lemma faiss_add_normalized_new (emb : list faiss.float32) :
  faiss.add (faiss.new (length emb)) (faiss.normalize_L2 emb)
  = Ok (faiss.mkIndexFlatIP (length emb) [faiss.normalize_L2 emb]).
Proof.
  unfold faiss.add, faiss.new; simpl.
  by rewrite length_normalize_L2, Nat.eqb_refl.
Qed.

(** The first [add] creates the index with the dimension of its embedding. *)
Lemma store_add_first (self : FaissQAVectorStore) (question answer : string)
    (embedding : list faiss.float32) :
  _index self = None ->
  store_add self question answer embedding
  = (mkStore (_questions self ++ [question]) (_answers self ++ [answer])
       (Some (faiss.mkIndexFlatIP (length embedding) [faiss.normalize_L2 embedding]))
       (Some (length embedding)), Ok tt).
Proof.
  intros Hnone. unfold store_add. rewrite Hnone. cbn [_index _questions _answers _dim].
  by rewrite faiss_add_normalized_new.
Qed.

Lemma store_add_next (self : FaissQAVectorStore) (index : faiss.IndexFlatIP)
    (question answer : string) (embedding : list faiss.float32) :
  _index self = Some index ->
  length embedding = faiss.d index ->
  store_add self question answer embedding
  = (mkStore (_questions self ++ [question]) (_answers self ++ [answer])
       (Some (faiss.mkIndexFlatIP (faiss.d index)
                (faiss.xb index ++ [faiss.normalize_L2 embedding])))
       (_dim self), Ok tt).
Proof.
  intros Hindex Hdim. unfold store_add. rewrite Hindex.
  cbn beta iota zeta. rewrite Hindex.
  unfold faiss.add. rewrite length_normalize_L2, Hdim, Nat.eqb_refl. reflexivity.
Qed.

Lemma store_add_mismatch (self : FaissQAVectorStore) (index : faiss.IndexFlatIP)
    (question answer : string) (embedding : list faiss.float32) :
  _index self = Some index ->
  length embedding <> faiss.d index ->
  store_add self question answer embedding = (self, Raise AssertionError).
Proof.
  intros Hindex Hdim. unfold store_add. rewrite Hindex.
  cbn beta iota zeta. rewrite Hindex.
  unfold faiss.add. rewrite length_normalize_L2.
  apply Nat.eqb_neq in Hdim. by rewrite Hdim.
Qed.

Lemma store_add_consistent (self : FaissQAVectorStore) (question answer : string)
    (embedding : list faiss.float32) :
  store_consistent self ->
  store_consistent (fst (store_add self question answer embedding)).
Proof.
  intros [Hn Hqa]. unfold store_consistent, store_ntotal in *.
  destruct (_index self) as [index|] eqn:Hindex.
  - destruct (decide (length embedding = faiss.d index)) as [Hdim|Hdim].
    + rewrite (store_add_next _ _ _ _ _ Hindex Hdim); simpl.
      unfold faiss.ntotal in *; simpl. rewrite !length_app; simpl. lia.
    + rewrite (store_add_mismatch _ _ _ _ _ Hindex Hdim); simpl.
      by rewrite Hindex.
  - rewrite (store_add_first _ _ _ _ Hindex); simpl.
    unfold faiss.ntotal; simpl. rewrite !length_app; simpl. lia.
Qed.

Lemma store_step_consistent (self : FaissQAVectorStore) (c : store_call) :
  store_consistent self -> store_consistent (store_step self c).
Proof. destruct c; simpl; [apply store_add_consistent | done]. Qed.

Lemma fold_store_step_consistent (calls : list store_call) (self : FaissQAVectorStore) :
  store_consistent self -> store_consistent (fold_left store_step calls self).
Proof.
  revert self. induction calls as [|c calls IH]; intros self Hself; simpl; [done|].
  apply IH, store_step_consistent, Hself.
Qed.

Lemma store_run_consistent (calls : list store_call) :
  store_consistent (store_run calls).
Proof. apply fold_store_step_consistent. by split. Qed.

(** *** Ranking *)

Lemma insert_by_score_perm (p : nat * faiss.float32) (l : list (nat * faiss.float32)) :
  faiss.insert_by_score p l ≡ₚ p :: l.
Proof.
  induction l as [|h t IH]; simpl; [done|].
  destruct (faiss.lt _ _); [|done].
  rewrite IH. apply Permutation_swap.
Qed.

Lemma rank_from_positions (base : nat) (q : list faiss.float32)
    (vectors : list (list faiss.float32)) :
  map fst (faiss.rank_from base q vectors) ≡ₚ seq base (length vectors).
Proof.
  revert base. induction vectors as [|x rest IH]; intros base; simpl; [done|].
  rewrite insert_by_score_perm; simpl. by rewrite IH.
Qed.

Lemma ranked_positions (index : faiss.IndexFlatIP) (q : list faiss.float32) :
  faiss.ranked index q ≡ₚ seq 0 (faiss.ntotal index).
Proof. apply rank_from_positions. Qed.

Lemma ranked_length (index : faiss.IndexFlatIP) (q : list faiss.float32) :
  length (faiss.ranked index q) = faiss.ntotal index.
Proof. by rewrite ranked_positions, length_seq. Qed.

Lemma ranked_in_range (index : faiss.IndexFlatIP) (q : list faiss.float32) :
  Forall (fun i => i < faiss.ntotal index) (faiss.ranked index q).
Proof.
  rewrite ranked_positions. apply Forall_forall. intros i Hi.
  apply elem_of_seq in Hi. lia.
Qed.

(** *** Reading the texts back *)

Lemma getitem_nat {A : Type} (l : list A) (i : nat) (x : A) :
  l !! i = Some x -> py.getitem l (Z.of_nat i) = Ok x.
Proof.
  intros Hx. pose proof (lookup_lt_Some _ _ _ Hx) as Hlt.
  unfold py.getitem.
  destruct (Z.of_nat i <? 0)%Z eqn:Hneg; [apply Z.ltb_lt in Hneg; lia|].
  destruct (0 <=? Z.of_nat i)%Z eqn:H0; [|apply Z.leb_gt in H0; lia].
  destruct (Z.of_nat i <? Z.of_nat (length l))%Z eqn:Hn;
    [|apply Z.ltb_ge in Hn; lia].
  simpl. by rewrite Nat2Z.id, Hx.
Qed.

Lemma read_back (questions answers : list string) (best : list nat) :
  length questions = length answers ->
  Forall (fun i => i < length questions) best ->
  exists results,
    mapM (fun idx : Z =>
            q_text ← py.getitem questions idx;
            a_text ← py.getitem answers idx;
            mret (q_text, a_text)) (map Z.of_nat best) = Ok results
    /\ Forall2 (fun i qa => questions !! i = Some (fst qa)
                            /\ answers !! i = Some (snd qa)) best results.
Proof.
  intros Hlen. induction 1 as [|i best Hi _ (results & Hres & Hall)]; simpl.
  - by exists [].
  - destruct (lookup_lt_is_Some_2 questions i Hi) as [q_text Hq].
    destruct (lookup_lt_is_Some_2 answers i ltac:(lia)) as [a_text Ha].
    exists ((q_text, a_text) :: results).
    rewrite (getitem_nat _ _ _ Hq); simpl. rewrite (getitem_nat _ _ _ Ha); simpl.
    rewrite Hres; simpl. split; [reflexivity|]. by constructor.
Qed.

(** What [search] answers on a consistent store: either the texts at the
    [min top_k ntotal] best positions, or the assertion of [faiss] on the
    width of the query or on the number of neighbours. *)
Lemma store_search_spec (self : FaissQAVectorStore)
    (query_embedding : list faiss.float32) (top_k : Z) :
  store_consistent self ->
  store_is_empty self = false ->
  exists index,
    _index self = Some index
    /\ ((length query_embedding <> faiss.d index \/ (top_k <= 0)%Z)
        /\ store_search self query_embedding top_k = Raise AssertionError
        \/ (length query_embedding = faiss.d index /\ (0 < top_k)%Z)
           /\ exists results,
               store_search self query_embedding top_k = Ok results
               /\ Forall2 (fun i qa => _questions self !! i = Some (fst qa)
                                       /\ _answers self !! i = Some (snd qa))
                    (take (Z.to_nat (Z.min top_k (Z.of_nat (faiss.ntotal index))))
                          (faiss.ranked index (faiss.normalize_L2 query_embedding)))
                    results).
Proof.
  intros [Hn Hqa] Hempty. unfold store_search. rewrite Hempty.
  unfold store_is_empty, store_ntotal in *.
  destruct (_index self) as [index|]; [|discriminate].
  apply Nat.eqb_neq in Hempty. exists index. split; [reflexivity|].
  unfold faiss.search. rewrite length_normalize_L2.
  destruct (decide (length query_embedding = faiss.d index)) as [Hdim|Hdim].
  - rewrite Hdim, Nat.eqb_refl; simpl.
    destruct (Z.min top_k (Z.of_nat (faiss.ntotal index)) <=? 0)%Z eqn:Hk.
    + left. apply Z.leb_le in Hk. split; [right; lia | reflexivity].
    + right. apply Z.leb_gt in Hk. split; [split; [done|lia]|].
      set (k := Z.min top_k (Z.of_nat (faiss.ntotal index))) in *.
      set (best := take (Z.to_nat k) (faiss.ranked index _)).
      assert (Hbest : length best = Z.to_nat k).
      { unfold best. rewrite length_take, ranked_length. lia. }
      rewrite Hbest, Nat.sub_diag; simpl. rewrite app_nil_r.
      assert (Hrange : Forall (fun i => i < length (_questions self)) best).
      { unfold best. apply Forall_take. rewrite <- Hn. apply ranked_in_range. }
      destruct (read_back _ _ _ Hqa Hrange) as (results & Hres & Hall).
      exists results. by split.
  - left. apply Nat.eqb_neq in Hdim. rewrite Hdim; simpl.
    split; [left; by apply Nat.eqb_neq | reflexivity].
Qed.

(** *** The position that comes first *)






Lemma read_by_position {A : Type} (stored results : list A) :
  Forall2 (fun i x => stored !! i = Some x) (seq 0 (length stored)) results ->
  results = stored.
Proof.
  intros Hall. apply list_eq. intros i.
  pose proof (Forall2_length _ _ _ Hall) as Hlen. rewrite length_seq in Hlen.
  destruct (stored !! i) as [x|] eqn:Hx.
  - pose proof (lookup_lt_Some _ _ _ Hx) as Hlt.
    destruct (Forall2_lookup_l _ _ _ i i Hall) as (y & Hy & Hxy).
    { by apply lookup_seq_lt. }
    congruence.
  - apply lookup_ge_None in Hx. apply lookup_ge_None. lia.
Qed.


(** *** The store built from a list of entries *)



(** *** The dimension of a store *)

Lemma store_step_dimension (self : FaissQAVectorStore) (c : store_call) (n : nat) :
  store_dimension self n -> store_dimension (store_step self c) n.
Proof.
  intros (index & Hindex & Hd & Hdim). destruct c as [q a e|]; simpl.
  - destruct (decide (length e = faiss.d index)) as [Hlen|Hlen].
    + rewrite (store_add_next _ _ _ _ _ Hindex Hlen); simpl.
      eexists; split; [reflexivity|]. by split.
    + rewrite (store_add_mismatch _ _ _ _ _ Hindex Hlen); simpl.
      by exists index.
  - by exists index.
Qed.

Lemma fold_store_step_dimension (calls : list store_call) (self : FaissQAVectorStore)
    (n : nat) :
  store_dimension self n -> store_dimension (fold_left store_step calls self) n.
Proof.
  revert self. induction calls as [|c calls IH]; intros self Hself; simpl; [done|].
  apply IH, store_step_dimension, Hself.
Qed.

(** C7. Once a first entry has been added, the dimension of the store is the
    length of that entry's embedding, whatever calls follow; [add] with an
    embedding of another length then raises the assertion of the index at
    once and leaves the store exactly as it was: nothing is appended, and the
    dimension is not changed. *)
Theorem store_add_wrong_dimension (question0 answer0 : string)
    (embedding0 : list faiss.float32) (calls : list store_call)
    (question answer : string) (embedding : list faiss.float32) :
  length embedding <> length embedding0 ->
  let self := store_run (CallAdd question0 answer0 embedding0 :: calls) in
  _dim self = Some (length embedding0)
  /\ store_add self question answer embedding = (self, Raise AssertionError).
Proof.
  intros Hlen self.
  assert (Hdim : store_dimension self (length embedding0)).
  { unfold self, store_run; simpl. apply fold_store_step_dimension.
    rewrite store_add_first by reflexivity; simpl.
    eexists; split; [reflexivity|]. by split. }
  destruct Hdim as (index & Hindex & Hd & Hdim). split; [exact Hdim|].
  apply (store_add_mismatch _ index); [exact Hindex | by rewrite Hd].
Qed.

(** C5. After any sequence of [add] and [search] calls on a new store, the
    size of the index equals the number of stored questions and the number of
    stored answers; a search therefore never reads outside the two lists, and
    every pair it returns is the question and the answer stored at one
    position of the index. *)
Theorem store_index_matches_entries (calls : list store_call) :
  let self := store_run calls in
  store_ntotal self = length (_questions self)
  /\ length (_questions self) = length (_answers self)
  /\ (forall query_embedding top_k results,
        store_search self query_embedding top_k = Ok results ->
        Forall (fun qa => exists i,
                    i < store_ntotal self
                    /\ _questions self !! i = Some (fst qa)
                    /\ _answers self !! i = Some (snd qa)) results)
  /\ (forall query_embedding top_k,
        store_search self query_embedding top_k <> Raise IndexError).
Proof.
  intros self. pose proof (store_run_consistent calls) as Hcons.
  fold self in Hcons. destruct (Hcons) as [Hn Hqa].
  split; [exact Hn|]. split; [exact Hqa|].
  assert (Hempty : forall query_embedding top_k,
             store_is_empty self = true ->
             store_search self query_embedding top_k = Ok []).
  { intros q k He. unfold store_search. by rewrite He. }
  split.
  - intros q k results Hsearch.
    destruct (store_is_empty self) eqn:He.
    + rewrite (Hempty q k eq_refl) in Hsearch. injection Hsearch as <-. constructor.
    + destruct (store_search_spec self q k Hcons He)
        as (index & Hindex & [[_ Hraise]|[_ (results' & Hok & Hall)]]);
        [congruence|].
      rewrite Hsearch in Hok. injection Hok as <-.
      clear Hsearch.
      induction Hall as [|i qa best rest [Hq Ha] _ IH]; constructor; [|exact IH].
      exists i. split; [|by split].
      rewrite Hn. by apply lookup_lt_Some in Hq.
  - intros q k Hsearch.
    destruct (store_is_empty self) eqn:He.
    + rewrite (Hempty q k eq_refl) in Hsearch. discriminate.
    + destruct (store_search_spec self q k Hcons He)
        as (index & Hindex & [[_ Hraise]|[_ (results' & Hok & _)]]); congruence.
Qed.

(** C6. On every store reached by [add] and [search] calls, a search asked
    for [top_k >= 0] neighbours returns at most [min top_k n] pairs, [n] being
    the number of stored entries; asked for a positive [top_k] with a query of
    the dimension of the index, it returns exactly that many, and asked for
    none or fewer on a store that holds entries it returns nothing: the index
    refuses the request. On an empty store, in whatever state, it returns the
    empty list and raises nothing. *)
Theorem store_search_at_most_top_k (calls : list store_call)
    (query_embedding : list faiss.float32) (top_k : Z) :
  let self := store_run calls in
  (forall results,
     (0 <= top_k)%Z ->
     store_search self query_embedding top_k = Ok results ->
     (Z.of_nat (length results)
      <= Z.min top_k (Z.of_nat (length (_questions self))))%Z)
  /\ (forall index,
        _index self = Some index ->
        length query_embedding = faiss.d index ->
        (0 < top_k)%Z ->
        exists results,
          store_search self query_embedding top_k = Ok results
          /\ Z.of_nat (length results)
             = Z.min top_k (Z.of_nat (length (_questions self))))
  /\ ((top_k <= 0)%Z ->
      store_is_empty self = false ->
      store_search self query_embedding top_k = Raise AssertionError)
  /\ (forall other : FaissQAVectorStore,
        store_is_empty other = true ->
        store_search other query_embedding top_k = Ok []).
Proof.
  intros self. pose proof (store_run_consistent calls) as Hcons.
  fold self in Hcons. destruct (Hcons) as [Hn Hqa].
  assert (Hempty : forall other : FaissQAVectorStore,
             store_is_empty other = true ->
             store_search other query_embedding top_k = Ok []).
  { intros other He. unfold store_search. by rewrite He. }
  assert (Hcount : forall index results,
             _index self = Some index ->
             Forall2 (fun i qa => _questions self !! i = Some (fst qa)
                                  /\ _answers self !! i = Some (snd qa))
               (take (Z.to_nat (Z.min top_k (Z.of_nat (faiss.ntotal index))))
                  (faiss.ranked index (faiss.normalize_L2 query_embedding)))
               results ->
             (0 < top_k)%Z ->
             Z.of_nat (length results)
             = Z.min top_k (Z.of_nat (length (_questions self)))).
  { intros index results Hindex Hall Hk.
    apply Forall2_length in Hall. rewrite <- Hall, length_take, ranked_length.
    unfold store_ntotal in Hn. rewrite Hindex in Hn. rewrite <- Hn. lia. }
  split; [|split; [|split; [|exact Hempty]]].
  - intros results Hk Hsearch.
    destruct (store_is_empty self) eqn:He.
    + rewrite (Hempty self He) in Hsearch. injection Hsearch as <-. simpl. lia.
    + destruct (store_search_spec self query_embedding top_k Hcons He)
        as (index & Hindex & [[_ Hraise]|[[_ Hpos] (results' & Hok & Hall)]]);
        [congruence|].
      rewrite Hsearch in Hok. injection Hok as <-.
      rewrite (Hcount index results Hindex Hall Hpos). lia.
  - intros index Hindex Hdim Hk.
    destruct (store_is_empty self) eqn:He.
    + exists []. split; [by apply Hempty|].
      unfold store_is_empty in He. rewrite Hindex in He.
      apply Nat.eqb_eq in He. unfold store_ntotal in Hn. rewrite Hindex in Hn.
      rewrite <- Hn, He. simpl. lia.
    + destruct (store_search_spec self query_embedding top_k Hcons He)
        as (index' & Hindex' & [[[Hbad|Hbad] _]|[_ (results & Hok & Hall)]]).
      * congruence.
      * lia.
      * exists results. split; [exact Hok|].
        by apply (Hcount index').
  - intros Hk He.
    destruct (store_search_spec self query_embedding top_k Hcons He)
      as (index & _ & [[_ Hraise]|[[_ Hpos] _]]); [exact Hraise | lia].
Qed.



(** ** The retention heuristic *)

Lemma small_talk_rejected (question answer p : string) :
  In p small_talk_prefixes ->
  py.startswith (py.lower (py.strip question)) p = true ->
  should_store_in_vector_memory question answer = false.
Proof.
  intros Hp Hstarts. unfold should_store_in_vector_memory.
  assert (Hany : existsb (fun p => py.startswith (py.lower (py.strip question)) p)
                   small_talk_prefixes = true).
  { apply existsb_exists. by exists p. }
  by rewrite Hany.
Qed.

(** C4. [should_store_in_vector_memory] answers [False] when the question,
    trimmed and put in lower case, begins with one of the small-talk markers;
    it answers [False] when the question has fewer than 4 words or the answer
    fewer than 6; it answers [True] in every other case. On the three
    exchanges that the specification lists it answers [False], [True] and
    [False]. *)
Theorem should_store_policy :
  (forall question answer,
     (exists p, In p small_talk_prefixes
                /\ py.startswith (py.lower (py.strip question)) p = true) ->
     should_store_in_vector_memory question answer = false)
  /\ (forall question answer,
        length (py.split question) < 4 \/ length (py.split answer) < 6 ->
        should_store_in_vector_memory question answer = false)
  /\ (forall question answer,
        (forall p, In p small_talk_prefixes ->
                   py.startswith (py.lower (py.strip question)) p = false) ->
        4 <= length (py.split question) ->
        6 <= length (py.split answer) ->
        should_store_in_vector_memory question answer = true)
  /\ should_store_in_vector_memory "Hi" "Hello!" = false
  /\ should_store_in_vector_memory
       "What is machine learning and how does it work?"
       "Machine learning is a subset of AI that enables systems to learn from data."
     = true
  /\ should_store_in_vector_memory "ok" "Great, glad that helped a lot today" = false.
Proof.
  split; [|split; [|split; [|split; [|split]]]]; try (vm_compute; reflexivity).
  - intros question answer (p & Hp & Hstarts).
    by apply (small_talk_rejected question answer p).
  - intros question answer Hshort. unfold should_store_in_vector_memory.
    destruct (existsb _ _); [reflexivity|].
    destruct Hshort as [Hq|Ha].
    + apply Nat.ltb_lt in Hq. by rewrite Hq.
    + apply Nat.ltb_lt in Ha. rewrite Ha. by rewrite orb_true_r.
  - intros question answer Hnone Hq Ha. unfold should_store_in_vector_memory.
    assert (Hany : existsb (fun p => py.startswith (py.lower (py.strip question)) p)
                     small_talk_prefixes = false).
    { apply not_true_is_false. intros Hex.
      apply existsb_exists in Hex as (p & Hp & Hstarts).
      rewrite (Hnone p Hp) in Hstarts. discriminate. }
    rewrite Hany.
    apply Nat.ltb_ge in Hq. apply Nat.ltb_ge in Ha. by rewrite Hq, Ha.
Qed.

(** C10. The small-talk test is a test on characters, not on words: the
    markers are the eleven literal strings below, and whatever the answer, a
    question whose trimmed, lower-case form begins with the characters of one
    of them is rejected, however many words the question and the answer
    have. A question that begins with the word History (which starts with
    [hi]) or with the word Okra (which starts with [ok]) is rejected although
    it is long enough and no greeting. *)
Theorem small_talk_test_is_a_character_prefix :
  small_talk_prefixes
  = [ "hi"; "hello"; "hey"; "good morning"; "good evening";
      "thanks"; "thank you"; "ok"; "okay"; "bye"; "goodbye" ]
  /\ (forall question answer p,
        In p small_talk_prefixes ->
        py.startswith (py.lower (py.strip question)) p = true ->
        should_store_in_vector_memory question answer = false)
  /\ (let question := "History of the Roman Empire in five sentences" in
      let answer := "Rome grew from a city state into an empire around the Mediterranean." in
      py.startswith (py.lower (py.strip question)) "hi" = true
      /\ 4 <= length (py.split question)
      /\ 6 <= length (py.split answer)
      /\ should_store_in_vector_memory question answer = false)
  /\ (let question := "Okra is cooked in which regional cuisines?" in
      let answer := "Okra is common in Southern, Indian, West African and Caribbean cooking." in
      py.startswith (py.lower (py.strip question)) "ok" = true
      /\ 4 <= length (py.split question)
      /\ 6 <= length (py.split answer)
      /\ should_store_in_vector_memory question answer = false).
Proof.
  split; [reflexivity|]. split; [exact small_talk_rejected|].
  split; vm_compute; repeat split; lia.
Qed.

(** ** The tokenizer *)

Lemma tokens_ok (text : string) (n : nat) :
  count_tokens text = Ok n -> tokens text = n.
Proof. unfold tokens. by intros ->. Qed.

Lemma encodable_tokens (text : string) :
  encodable text <-> count_tokens text = Ok (tokens text).
Proof.
  split; [|by exists (tokens text)].
  intros [n Hn]. by rewrite (tokens_ok _ _ Hn).
Qed.

(** An outcome of the tokenizer: the number of tokens of the text, or the
    exception raised. *)
Lemma count_tokens_outcome (text : string) :
  count_tokens text = Ok (tokens text) \/ exists e, count_tokens text = Raise e.
Proof.
  unfold tokens. destruct (count_tokens text) as [n|e]; [by left | right; by exists e].
Qed.

(** ** The pair selector *)

Lemma pairs_within_prefix qa_pairs total_tokens max_tokens :
  pairs_within qa_pairs total_tokens max_tokens `prefix_of` qa_pairs.
Proof.
  revert total_tokens.
  induction qa_pairs as [|qa rest IH]; intros total_tokens; simpl.
  - reflexivity.
  - destruct (_ <? _)%Z; [apply prefix_nil|].
    apply prefix_cons, IH.
Qed.

Lemma pairs_within_idempotent qa_pairs total_tokens max_tokens :
  pairs_within (pairs_within qa_pairs total_tokens max_tokens) total_tokens max_tokens
  = pairs_within qa_pairs total_tokens max_tokens.
Proof.
  revert total_tokens.
  induction qa_pairs as [|qa rest IH]; intros total_tokens; simpl; [done|].
  destruct (_ <? _)%Z eqn:Hover; simpl; [done|].
  rewrite Hover. f_equal. apply IH.
Qed.

(** The pair that follows the selected ones is the first that overflows. *)
Lemma pairs_within_stops qa_pairs total_tokens max_tokens qa rest :
  qa_pairs = pairs_within qa_pairs total_tokens max_tokens ++ qa :: rest ->
  (max_tokens
   < Z.of_nat (total_tokens
               + pairs_tokens (pairs_within qa_pairs total_tokens max_tokens)
               + pair_tokens qa))%Z.
Proof.
  revert total_tokens.
  induction qa_pairs as [|qa' rest' IH]; intros total_tokens; simpl.
  - intros H. discriminate H.
  - destruct (_ <? _)%Z eqn:Hover; simpl.
    + intros [= -> ->]. apply Z.ltb_lt in Hover.
      unfold pairs_tokens; simpl. lia.
    + intros [= Hrest]. apply IH in Hrest.
      unfold pairs_tokens in *; simpl. lia.
Qed.

Lemma pairs_within_fits qa_pairs total_tokens max_tokens :
  pairs_within qa_pairs total_tokens max_tokens <> [] ->
  (Z.of_nat (total_tokens
             + pairs_tokens (pairs_within qa_pairs total_tokens max_tokens))
   <= max_tokens)%Z.
Proof.
  revert total_tokens.
  induction qa_pairs as [|qa rest IH]; intros total_tokens; simpl; [done|].
  destruct (_ <? _)%Z eqn:Hover; [done|]. intros _.
  apply Z.ltb_ge in Hover.
  destruct (pairs_within rest (total_tokens + pair_tokens qa) max_tokens) eqn:Hrest.
  - unfold pairs_tokens; simpl. lia.
  - unfold pairs_tokens in *; simpl.
    assert (Hne : pairs_within rest (total_tokens + pair_tokens qa) max_tokens <> [])
      by (rewrite Hrest; discriminate).
    apply IH in Hne. rewrite Hrest in Hne. simpl in Hne. lia.
Qed.

Lemma pairs_within_negative qa_pairs total_tokens max_tokens :
  (max_tokens < 0)%Z -> pairs_within qa_pairs total_tokens max_tokens = [].
Proof.
  intros Hneg. destruct qa_pairs as [|qa rest]; simpl; [done|].
  destruct (_ <? _)%Z eqn:Hb; [done|]. apply Z.ltb_ge in Hb. lia.
Qed.

Lemma pairs_within_all qa_pairs total_tokens max_tokens :
  (Z.of_nat (total_tokens + pairs_tokens qa_pairs) <= max_tokens)%Z ->
  pairs_within qa_pairs total_tokens max_tokens = qa_pairs.
Proof.
  revert total_tokens.
  induction qa_pairs as [|qa rest IH]; intros total_tokens Hfit; simpl; [done|].
  unfold pairs_tokens in Hfit; simpl in Hfit. fold (pairs_tokens rest) in Hfit.
  destruct (_ <? _)%Z eqn:Hover; [apply Z.ltb_lt in Hover; lia|].
  f_equal. apply IH. lia.
Qed.

Lemma pairs_within_mono qa_pairs total_tokens max_tokens max_tokens' :
  (max_tokens <= max_tokens')%Z ->
  pairs_within qa_pairs total_tokens max_tokens
  `prefix_of` pairs_within qa_pairs total_tokens max_tokens'.
Proof.
  intros Hle. revert total_tokens.
  induction qa_pairs as [|qa rest IH]; intros total_tokens; simpl; [done|].
  destruct (max_tokens <? _)%Z eqn:Hb; [apply prefix_nil|].
  destruct (max_tokens' <? _)%Z eqn:Hb'.
  - apply Z.ltb_ge in Hb. apply Z.ltb_lt in Hb'. lia.
  - apply prefix_cons, IH.
Qed.

(** When the pair loop returns, it returns the pairs that pass the budget
    test, and the tokenizer has encoded the text of each of them and of the
    pair that follows them. *)
Lemma select_vector_qa_loop_closed qa_pairs selected total_tokens max_tokens returned :
  select_vector_qa_loop qa_pairs selected total_tokens max_tokens = Ok returned ->
  returned = selected ++ pairs_within qa_pairs total_tokens max_tokens
  /\ Forall (fun qa => encodable (pair_text qa))
        (pairs_within qa_pairs total_tokens max_tokens)
  /\ (forall qa rest,
        qa_pairs = pairs_within qa_pairs total_tokens max_tokens ++ qa :: rest ->
        encodable (pair_text qa)).
Proof.
  revert selected total_tokens.
  induction qa_pairs as [|[q a] rest IH]; intros selected total_tokens Hloop;
    simpl in *.
  - injection Hloop as <-. rewrite app_nil_r. split; [done|]. split; [constructor|].
    intros qa rest' Hnil. discriminate Hnil.
  - destruct (count_tokens (pair_text (q, a))) as [n|e] eqn:Hn; simpl in Hloop;
      [|discriminate].
    assert (Hpt : pair_tokens (q, a) = n) by (by apply tokens_ok).
    rewrite Hpt.
    destruct (_ <? _)%Z.
    + injection Hloop as <-. rewrite app_nil_r. split; [done|]. split; [constructor|].
      intros qa rest' Hsplit. simpl in Hsplit. injection Hsplit as <- _.
      by exists n.
    + apply IH in Hloop as (-> & Hread & Hnext).
      split; [by rewrite <- app_assoc|]. split.
      * constructor; [by exists n | exact Hread].
      * intros qa rest' Hsplit. simpl in Hsplit. injection Hsplit as Hrest.
        by apply (Hnext qa rest').
Qed.

(** The pair loop returns when the tokenizer encodes the text of every
    pair. *)
Lemma select_vector_qa_loop_returns qa_pairs selected total_tokens max_tokens :
  Forall (fun qa => encodable (pair_text qa)) qa_pairs ->
  select_vector_qa_loop qa_pairs selected total_tokens max_tokens
  = Ok (selected ++ pairs_within qa_pairs total_tokens max_tokens).
Proof.
  intros Hall. revert selected total_tokens.
  induction Hall as [|[q a] rest Hqa _ IH]; intros selected total_tokens; simpl.
  - by rewrite app_nil_r.
  - apply encodable_tokens in Hqa. rewrite Hqa; simpl.
    fold (pair_tokens (q, a)).
    destruct (_ <? _)%Z; [by rewrite app_nil_r|].
    rewrite IH. by rewrite <- app_assoc.
Qed.

(** What the pair loop raises was raised by the tokenizer on the text of a
    pair. *)
Lemma select_vector_qa_loop_raises qa_pairs selected total_tokens max_tokens e :
  select_vector_qa_loop qa_pairs selected total_tokens max_tokens = Raise e ->
  exists qa, qa ∈ qa_pairs /\ count_tokens (pair_text qa) = Raise e.
Proof.
  revert selected total_tokens.
  induction qa_pairs as [|[q a] rest IH]; intros selected total_tokens; simpl;
    [discriminate|].
  destruct (count_tokens (pair_text (q, a))) as [n|e'] eqn:Hn; simpl.
  - destruct (_ <? _)%Z; [discriminate|].
    intros Hloop. apply IH in Hloop as (qa & Hin & Hqa).
    exists qa. split; [by right | exact Hqa].
  - intros [= <-]. exists (q, a). split; [left | exact Hn].
Qed.

(** C8. For every ranked pair list and every budget, what
    [select_vector_qa_within_budget] returns is a contiguous prefix of the
    list: the scan goes in the given order, the selected pairs fit the budget
    together, and the scan stops at the first pair whose rendered block would
    overflow it, so the pair that follows the selection, if any, does not fit
    after it. Applying the selector with the same budget to its own output
    returns that output unchanged. The call returns when the tokenizer
    encodes the block of every pair, and raises nothing but what the
    tokenizer raises on one of the blocks. *)
Theorem select_vector_qa_prefix_idempotent
    (qa_pairs : list (string * string)) (max_tokens : Z) :
  (forall selected,
     select_vector_qa_within_budget qa_pairs max_tokens = Ok selected ->
     selected `prefix_of` qa_pairs
     /\ Forall (fun qa => count_tokens (pair_text qa) = Ok (pair_tokens qa)) selected
     /\ (selected = [] \/ (Z.of_nat (pairs_tokens selected) <= max_tokens)%Z)
     /\ (forall qa rest,
           qa_pairs = selected ++ qa :: rest ->
           count_tokens (pair_text qa) = Ok (pair_tokens qa)
           /\ (max_tokens < Z.of_nat (pairs_tokens selected + pair_tokens qa))%Z)
     /\ select_vector_qa_within_budget selected max_tokens = Ok selected)
  /\ (Forall (fun qa => encodable (pair_text qa)) qa_pairs ->
      exists selected,
        select_vector_qa_within_budget qa_pairs max_tokens = Ok selected)
  /\ (forall e,
        select_vector_qa_within_budget qa_pairs max_tokens = Raise e ->
        exists qa, qa ∈ qa_pairs /\ count_tokens (pair_text qa) = Raise e).
Proof.
  unfold select_vector_qa_within_budget. split; [|split].
  - intros selected Hsel.
    apply select_vector_qa_loop_closed in Hsel as (-> & Hread & Hnext).
    cbn [app]. split; [apply pairs_within_prefix|]. split; [|split; [|split]].
    + eapply Forall_impl; [exact Hread|]. intros qa Hqa.
      by apply encodable_tokens.
    + destruct (pairs_within qa_pairs 0 max_tokens) as [|qa sel] eqn:Hsel; [by left|].
      right. rewrite <- Hsel.
      apply (pairs_within_fits qa_pairs 0 max_tokens). rewrite Hsel. discriminate.
    + intros qa rest Hsplit. split.
      * apply encodable_tokens. by apply (Hnext qa rest).
      * by apply pairs_within_stops in Hsplit.
    + rewrite select_vector_qa_loop_returns by exact Hread.
      cbn [app]. by rewrite pairs_within_idempotent.
  - intros Hall. eexists. by apply select_vector_qa_loop_returns.
  - intros e. apply select_vector_qa_loop_raises.
Qed.

(** ** The history selector *)

Lemma mapM_result_Forall2 {A B : Type} (f : A -> result B) (l : list A) (r : list B) :
  mapM f l = Ok r <-> Forall2 (fun x y => f x = Ok y) l r.
Proof.
  revert r. induction l as [|x l IH]; intros r; simpl.
  - split; [intros [= <-]; constructor | intros H; inversion H; reflexivity].
  - split.
    + destruct (f x) as [y|e] eqn:Hx; simpl; [|discriminate].
      destruct (mapM f l) as [k|e] eqn:Hl; simpl; [|discriminate].
      intros [= <-]. constructor; [exact Hx | by apply IH].
    + intros H. inversion H as [|x' y l' k Hx Hl]; subst.
      apply IH in Hl. rewrite Hx; simpl. rewrite Hl; simpl. reflexivity.
Qed.

(** *** The cost of a message list *)

Lemma messages_tokens_cons (msg : Message) (rest : list Message) :
  messages_tokens (msg :: rest) = messages_tokens [msg] + messages_tokens rest.
Proof. unfold messages_tokens; simpl. lia. Qed.

Lemma messages_tokens_app (l1 l2 : list Message) :
  messages_tokens (l1 ++ l2) = messages_tokens l1 + messages_tokens l2.
Proof.
  induction l1 as [|msg l1 IH]; simpl; [reflexivity|].
  rewrite messages_tokens_cons, (messages_tokens_cons msg l1), IH. lia.
Qed.

Lemma messages_tokens_reverse (l : list Message) :
  messages_tokens (reverse l) = messages_tokens l.
Proof.
  induction l as [|msg l IH]; [reflexivity|].
  rewrite reverse_cons, messages_tokens_app, IH, (messages_tokens_cons msg l). lia.
Qed.

Lemma messages_tokens_single (msg : Message) (n : nat) :
  count_tokens (message_text msg) = Ok n -> messages_tokens [msg] = n.
Proof.
  intros Hn. unfold messages_tokens, message_tokens; simpl.
  rewrite (tokens_ok _ _ Hn). lia.
Qed.

(** When the counting loop returns, the tokenizer has encoded the text of
    every message and the loop has added up their numbers of tokens. *)
Lemma count_message_list_tokens_loop_inv (messages : list Message) (total n : nat) :
  count_message_list_tokens_loop messages total = Ok n ->
  Forall (fun msg => encodable (message_text msg)) messages
  /\ n = total + messages_tokens messages.
Proof.
  revert total. induction messages as [|msg rest IH]; intros total; simpl.
  - intros [= <-]. split; [constructor | unfold messages_tokens; simpl; lia].
  - destruct (count_tokens (message_text msg)) as [m|e] eqn:Hm; simpl; [|discriminate].
    intros Hloop. apply IH in Hloop as [Hrest ->].
    split; [constructor; [by exists m | exact Hrest]|].
    rewrite (messages_tokens_cons msg rest), (messages_tokens_single _ _ Hm). lia.
Qed.

Lemma count_message_list_tokens_loop_ok (messages : list Message) (total : nat) :
  Forall (fun msg => encodable (message_text msg)) messages ->
  count_message_list_tokens_loop messages total
  = Ok (total + messages_tokens messages).
Proof.
  intros Hall. revert total.
  induction Hall as [|msg rest Hmsg _ IH]; intros total; simpl.
  - unfold messages_tokens; simpl. f_equal. lia.
  - apply encodable_tokens in Hmsg. rewrite Hmsg; simpl. rewrite IH. f_equal.
    rewrite (messages_tokens_cons msg rest), (messages_tokens_single _ _ Hmsg). lia.
Qed.

(** What the counting loop raises was raised by the tokenizer on the text of
    a message. *)
Lemma count_message_list_tokens_loop_raises (messages : list Message) (total : nat)
    (e : exn) :
  count_message_list_tokens_loop messages total = Raise e ->
  exists msg, msg ∈ messages /\ count_tokens (message_text msg) = Raise e.
Proof.
  revert total. induction messages as [|msg rest IH]; intros total; simpl;
    [discriminate|].
  destruct (count_tokens (message_text msg)) as [m|e'] eqn:Hm; simpl.
  - intros Hloop. apply IH in Hloop as (msg' & Hin & Hraise).
    exists msg'. split; [by right | exact Hraise].
  - intros [= <-]. exists msg. split; [left | exact Hm].
Qed.

Lemma count_message_list_tokens_inv (messages : list Message) (n : nat) :
  count_message_list_tokens messages = Ok n ->
  Forall (fun msg => encodable (message_text msg)) messages
  /\ n = messages_tokens messages.
Proof.
  intros Hcount. by apply count_message_list_tokens_loop_inv in Hcount as [Hall ->].
Qed.

Lemma count_message_list_tokens_ok (messages : list Message) :
  Forall (fun msg => encodable (message_text msg)) messages ->
  count_message_list_tokens messages = Ok (messages_tokens messages).
Proof.
  intros Hall. unfold count_message_list_tokens.
  by rewrite count_message_list_tokens_loop_ok.
Qed.

(** The cost of one message is what the tokenizer answers on its text. *)
Lemma count_message_list_tokens_single (msg : Message) :
  count_message_list_tokens [msg] = count_tokens (message_text msg).
Proof.
  unfold count_message_list_tokens; simpl.
  by destruct (count_tokens (message_text msg)).
Qed.

(** *** The messages that pass the budget test *)

Lemma recent_within_prefix reversed_history total_tokens max_tokens :
  recent_within reversed_history total_tokens max_tokens `prefix_of` reversed_history.
Proof.
  revert total_tokens.
  induction reversed_history as [|msg rest IH]; intros total_tokens;
    cbn [recent_within].
  - reflexivity.
  - destruct (_ <? _)%Z; [apply prefix_nil|]. apply prefix_cons, IH.
Qed.

Lemma recent_within_all reversed_history total_tokens max_tokens :
  (Z.of_nat (total_tokens + messages_tokens reversed_history) <= max_tokens)%Z ->
  recent_within reversed_history total_tokens max_tokens = reversed_history.
Proof.
  revert total_tokens.
  induction reversed_history as [|msg rest IH]; intros total_tokens Hfit;
    cbn [recent_within]; [done|].
  rewrite messages_tokens_cons in Hfit.
  destruct (_ <? _)%Z eqn:Hover; [apply Z.ltb_lt in Hover; lia|].
  f_equal. apply IH. lia.
Qed.

Lemma recent_within_stops reversed_history total_tokens max_tokens msg rest :
  reversed_history
  = recent_within reversed_history total_tokens max_tokens ++ msg :: rest ->
  (max_tokens
   < Z.of_nat (total_tokens
               + messages_tokens
                   (recent_within reversed_history total_tokens max_tokens)
               + messages_tokens [msg]))%Z.
Proof.
  revert total_tokens.
  induction reversed_history as [|msg' rest' IH]; intros total_tokens;
    cbn [recent_within].
  - intros H. discriminate H.
  - destruct (_ <? _)%Z eqn:Hover; simpl app.
    + intros [= -> ->]. apply Z.ltb_lt in Hover.
      change (messages_tokens []) with 0. lia.
    + intros [= Hrest]. apply IH in Hrest.
      rewrite (messages_tokens_cons msg'). lia.
Qed.

Lemma recent_within_fits reversed_history total_tokens max_tokens :
  recent_within reversed_history total_tokens max_tokens <> [] ->
  (Z.of_nat (total_tokens
             + messages_tokens
                 (recent_within reversed_history total_tokens max_tokens))
   <= max_tokens)%Z.
Proof.
  revert total_tokens.
  induction reversed_history as [|msg rest IH]; intros total_tokens;
    cbn [recent_within]; [done|].
  destruct (_ <? _)%Z eqn:Hover; [done|]. intros _.
  apply Z.ltb_ge in Hover.
  rewrite messages_tokens_cons.
  destruct (recent_within rest (total_tokens + messages_tokens [msg])
              max_tokens) as [|msg' taken] eqn:Hrest.
  - change (messages_tokens []) with 0. lia.
  - assert (Hne : recent_within rest (total_tokens + messages_tokens [msg])
                    max_tokens <> []) by (rewrite Hrest; discriminate).
    apply IH in Hne. rewrite Hrest in Hne. lia.
Qed.

Lemma recent_within_negative reversed_history total_tokens max_tokens :
  (max_tokens < Z.of_nat total_tokens)%Z ->
  recent_within reversed_history total_tokens max_tokens = [].
Proof.
  intros Hneg. destruct reversed_history as [|msg rest]; cbn [recent_within]; [done|].
  destruct (_ <? _)%Z eqn:Hover; [done|]. apply Z.ltb_ge in Hover. lia.
Qed.

Lemma recent_within_stops_before reversed_history l1 l2 msg total_tokens max_tokens :
  reversed_history = l1 ++ msg :: l2 ->
  (max_tokens
   < Z.of_nat (total_tokens + messages_tokens l1 + messages_tokens [msg]))%Z ->
  recent_within reversed_history total_tokens max_tokens `prefix_of` l1.
Proof.
  intros ->. revert total_tokens.
  induction l1 as [|msg1 l1 IH]; intros total_tokens Hover; simpl app;
    cbn [recent_within].
  - change (messages_tokens []) with 0 in Hover.
    destruct (_ <? _)%Z eqn:Hb; [done|]. apply Z.ltb_ge in Hb. lia.
  - destruct (_ <? _)%Z; [apply prefix_nil|].
    apply prefix_cons, IH.
    rewrite (messages_tokens_cons msg1) in Hover. lia.
Qed.

Lemma recent_within_mono reversed_history total_tokens max_tokens max_tokens' :
  (max_tokens <= max_tokens')%Z ->
  recent_within reversed_history total_tokens max_tokens
  `prefix_of` recent_within reversed_history total_tokens max_tokens'.
Proof.
  intros Hle. revert total_tokens.
  induction reversed_history as [|msg rest IH]; intros total_tokens;
    cbn [recent_within]; [done|].
  destruct (max_tokens <? _)%Z eqn:Hb; [apply prefix_nil|].
  destruct (max_tokens' <? _)%Z eqn:Hb'.
  - apply Z.ltb_ge in Hb. apply Z.ltb_lt in Hb'. lia.
  - apply prefix_cons, IH.
Qed.

(** *** The clean copies *)

Lemma clean_copy_total (msg : Message) :
  has_role_content msg -> exists copy, clean_copy msg = Ok copy.
Proof.
  intros [[role Hrole] [content Hcontent]].
  exists (turn role content).
  unfold clean_copy, py.dict_getitem. rewrite Hrole; simpl. by rewrite Hcontent.
Qed.

Lemma clean_copy_keys (msg copy : Message) :
  clean_copy msg = Ok copy -> has_role_content msg.
Proof.
  unfold clean_copy, py.dict_getitem, has_role_content.
  destruct (msg !! "role") as [role|]; [|discriminate].
  destruct (msg !! "content") as [content|]; [|discriminate].
  intros _. split; by eexists.
Qed.

Lemma clean_copy_raises (msg : Message) (e : exn) :
  clean_copy msg = Raise e -> e = KeyError /\ ~ has_role_content msg.
Proof.
  unfold clean_copy, py.dict_getitem, has_role_content.
  destruct (msg !! "role") as [role|] eqn:Hrole.
  - destruct (msg !! "content") as [content|] eqn:Hcontent; [discriminate|].
    cbn. intros [= <-]. split; [reflexivity|]. intros [_ [content Hsome]]. congruence.
  - cbn. intros [= <-]. split; [reflexivity|]. intros [[role Hsome] _]. congruence.
Qed.

Lemma clean_copy_turn (role content : string) :
  clean_copy (turn role content) = Ok (turn role content).
Proof. reflexivity. Qed.

Lemma mapM_clean_copy_total (l : list Message) :
  Forall has_role_content l -> exists copies, mapM clean_copy l = Ok copies.
Proof.
  induction 1 as [|msg l Hmsg _ [copies IH]]; simpl.
  - by exists [].
  - destruct (clean_copy_total msg Hmsg) as [copy Hcopy].
    exists (copy :: copies). rewrite Hcopy; simpl. by rewrite IH.
Qed.

Lemma mapM_clean_copy_raise (l : list Message) (e : exn) :
  mapM clean_copy l = Raise e ->
  e = KeyError /\ Exists (fun msg => ~ has_role_content msg) l.
Proof.
  induction l as [|msg l IH]; cbn [mapM]; [discriminate|].
  destruct (clean_copy msg) as [copy|e'] eqn:Hcopy;
    cbn [mbind result_bind mret result_ret].
  - destruct (mapM clean_copy l) as [copies|e'];
      cbn [mbind result_bind mret result_ret]; [discriminate|].
    intros [= <-]. destruct (IH eq_refl) as [-> Hex]. split; [reflexivity|].
    by apply Exists_cons_tl.
  - intros [= <-]. apply clean_copy_raises in Hcopy as [-> Hbad].
    split; [reflexivity | by apply Exists_cons_hd].
Qed.

Lemma clean_copies_unique (l copies copies' : list Message) :
  Forall2 (fun msg copy => clean_copy msg = Ok copy) l copies ->
  Forall2 (fun msg copy => clean_copy msg = Ok copy) l copies' ->
  copies = copies'.
Proof.
  intros Hc. revert copies'.
  induction Hc as [|msg copy l copies Hcopy _ IH]; intros copies' Hc';
    inversion Hc'; subst; [reflexivity|].
  f_equal; [congruence | by apply IH].
Qed.

Lemma clean_copies_are_turns (l copies : list Message) :
  Forall2 (fun msg copy => clean_copy msg = Ok copy) l copies ->
  Forall (fun copy => exists role content, copy = turn role content) copies.
Proof.
  induction 1 as [|msg copy l copies Hcopy _ IH]; constructor; [|exact IH].
  unfold clean_copy, py.dict_getitem in Hcopy.
  destruct (msg !! "role") as [role|]; [|discriminate].
  destruct (msg !! "content") as [content|]; [|discriminate].
  injection Hcopy as <-. by exists role, content.
Qed.

Lemma turns_are_their_copies (l : list Message) :
  Forall (fun msg => exists role content, msg = turn role content) l ->
  Forall2 (fun msg copy => clean_copy msg = Ok copy) l l.
Proof.
  induction 1 as [|msg l (role & content & ->) _ IH]; constructor; [|exact IH].
  apply clean_copy_turn.
Qed.

Lemma turn_role (role content : string) : turn role content !! "role" = Some role.
Proof. unfold turn. by simplify_map_eq. Qed.

Lemma turn_content (role content : string) :
  turn role content !! "content" = Some content.
Proof. unfold turn. by simplify_map_eq. Qed.

(** The text that is charged for a message reads its role and its content
    only, and a clean copy is charged the text of the original. *)
Lemma message_text_same_keys (msg msg' : Message) :
  py.dict_get msg "role" "" = py.dict_get msg' "role" "" ->
  py.dict_get msg "content" "" = py.dict_get msg' "content" "" ->
  message_text msg = message_text msg'.
Proof. intros Hrole Hcontent. unfold message_text. by rewrite Hrole, Hcontent. Qed.

Lemma message_text_clean_copy (msg copy : Message) :
  clean_copy msg = Ok copy -> message_text copy = message_text msg.
Proof.
  unfold clean_copy, py.dict_getitem.
  destruct (msg !! "role") as [role|] eqn:Hrole; [|discriminate].
  destruct (msg !! "content") as [content|] eqn:Hcontent; [|discriminate].
  intros [= <-]. apply message_text_same_keys; unfold py.dict_get.
  - by rewrite turn_role, Hrole.
  - by rewrite turn_content, Hcontent.
Qed.

Lemma message_texts_clean_copies (l copies : list Message) :
  Forall2 (fun msg copy => clean_copy msg = Ok copy) l copies ->
  map message_text copies = map message_text l.
Proof.
  induction 1 as [|msg copy l copies Hcopy _ IH]; [reflexivity|]. simpl.
  by rewrite (message_text_clean_copy msg copy Hcopy), IH.
Qed.

(** The counting loop depends on the texts of the messages only. *)
Lemma count_message_list_tokens_loop_texts (l l' : list Message) (total : nat) :
  map message_text l = map message_text l' ->
  count_message_list_tokens_loop l total = count_message_list_tokens_loop l' total.
Proof.
  revert l' total. induction l as [|msg l IH]; intros [|msg' l'] total Htexts;
    try discriminate; [reflexivity|].
  injection Htexts as Hmsg Hrest. simpl. rewrite Hmsg.
  destruct (count_tokens (message_text msg')); simpl; [by apply IH | reflexivity].
Qed.

Lemma count_clean_copies (l copies : list Message) :
  Forall2 (fun msg copy => clean_copy msg = Ok copy) l copies ->
  count_message_list_tokens copies = count_message_list_tokens l.
Proof.
  intros Hcopies. apply count_message_list_tokens_loop_texts.
  by apply message_texts_clean_copies.
Qed.

Lemma messages_tokens_clean_copies (l copies : list Message) :
  Forall2 (fun msg copy => clean_copy msg = Ok copy) l copies ->
  messages_tokens copies = messages_tokens l.
Proof.
  intros Hcopies. unfold messages_tokens, message_tokens.
  rewrite <- !(map_map message_text tokens).
  by rewrite (message_texts_clean_copies _ _ Hcopies).
Qed.

(** *** The loop and the messages it reads *)

Lemma reads_encodable_all reversed_history total_tokens max_tokens :
  Forall (fun msg => encodable (message_text msg)) reversed_history ->
  reads_encodable reversed_history total_tokens max_tokens.
Proof.
  intros Hall. split.
  - destruct (recent_within_prefix reversed_history total_tokens max_tokens)
      as [rest Hrest].
    rewrite Hrest in Hall. by apply Forall_app in Hall as [Hread _].
  - intros msg rest Hsplit. rewrite Hsplit in Hall.
    apply Forall_app in Hall as [_ Hall]. by inversion Hall.
Qed.

Lemma select_recent_loop_closed reversed_history selected total_tokens max_tokens
    returned :
  select_recent_loop reversed_history selected total_tokens max_tokens = Ok returned ->
  reads_encodable reversed_history total_tokens max_tokens
  /\ exists copies,
       mapM clean_copy (recent_within reversed_history total_tokens max_tokens)
       = Ok copies
       /\ returned = selected ++ copies.
Proof.
  unfold reads_encodable. revert selected total_tokens.
  induction reversed_history as [|msg rest IH]; intros selected total_tokens Hloop;
    cbn [select_recent_loop recent_within] in *.
  - injection Hloop as <-. split.
    + split; [constructor|]. intros msg rest Hnil. discriminate Hnil.
    + exists []. by rewrite app_nil_r.
  - rewrite count_message_list_tokens_single in Hloop.
    destruct (count_tokens (message_text msg)) as [n|e] eqn:Hn;
      cbn [mbind result_bind] in Hloop; [|discriminate].
    rewrite (messages_tokens_single _ _ Hn).
    destruct (_ <? _)%Z.
    + injection Hloop as <-. split.
      * split; [constructor|]. intros msg' rest' Hsplit.
        simpl in Hsplit. injection Hsplit as <- _. by exists n.
      * exists []. by rewrite app_nil_r.
    + cbn [mapM].
      change (clean_copy msg)
        with (role ← py.dict_getitem msg "role";
              content ← py.dict_getitem msg "content";
              (mret (turn role content) : result Message)).
      destruct (py.dict_getitem msg "role") as [role|e];
        cbn [mbind result_bind] in Hloop |- *; [|discriminate].
      destruct (py.dict_getitem msg "content") as [content|e];
        cbn [mbind result_bind mret result_ret] in Hloop |- *; [|discriminate].
      apply IH in Hloop as ([Hread Hnext] & copies & Hcopies & ->).
      split.
      * split; [constructor; [by exists n | exact Hread]|].
        intros msg' rest' Hsplit. simpl in Hsplit. injection Hsplit as Hrest.
        by apply (Hnext msg' rest').
      * exists (turn role content :: copies). rewrite Hcopies.
        cbn [mbind result_bind mret result_ret]. by rewrite <- app_assoc.
Qed.

Lemma select_recent_loop_returns reversed_history selected total_tokens max_tokens :
  reads_encodable reversed_history total_tokens max_tokens ->
  select_recent_loop reversed_history selected total_tokens max_tokens
  = (copies ← mapM clean_copy (recent_within reversed_history total_tokens max_tokens);
     mret (selected ++ copies)).
Proof.
  unfold reads_encodable. revert selected total_tokens.
  induction reversed_history as [|msg rest IH];
    intros selected total_tokens [Hread Hnext];
    cbn [select_recent_loop recent_within] in *.
  - simpl. by rewrite app_nil_r.
  - rewrite count_message_list_tokens_single.
    assert (Hmsg : encodable (message_text msg)).
    { destruct (_ <? _)%Z; [by apply (Hnext msg rest) | by inversion Hread]. }
    destruct Hmsg as [n Hn]. rewrite Hn. cbn [mbind result_bind].
    rewrite (messages_tokens_single _ _ Hn) in *.
    destruct (_ <? _)%Z; [simpl; by rewrite app_nil_r|].
    cbn [mapM].
    change (clean_copy msg)
      with (role ← py.dict_getitem msg "role";
            content ← py.dict_getitem msg "content";
            (mret (turn role content) : result Message)).
    destruct (py.dict_getitem msg "role") as [role|e]; [|reflexivity].
    destruct (py.dict_getitem msg "content") as [content|e]; [|reflexivity].
    cbn [mbind result_bind mret result_ret]. rewrite IH.
    + destruct (mapM clean_copy _) as [copies|e]; [|reflexivity].
      cbn [mbind result_bind mret result_ret]. by rewrite <- app_assoc.
    + split; [by inversion Hread|].
      intros msg' rest' Hsplit. apply (Hnext msg' rest'). simpl. by rewrite <- Hsplit.
Qed.

(** What the loop raises: [KeyError] for a turn without the two keys, or what
    the tokenizer raised on the text of a turn. *)
Lemma select_recent_loop_raises reversed_history selected total_tokens max_tokens e :
  select_recent_loop reversed_history selected total_tokens max_tokens = Raise e ->
  (e = KeyError /\ Exists (fun msg => ~ has_role_content msg) reversed_history)
  \/ (exists msg, msg ∈ reversed_history /\ count_tokens (message_text msg) = Raise e).
Proof.
  revert selected total_tokens.
  induction reversed_history as [|msg rest IH]; intros selected total_tokens;
    cbn [select_recent_loop]; [discriminate|].
  rewrite count_message_list_tokens_single.
  destruct (count_tokens (message_text msg)) as [n|e'] eqn:Hn; cbn [mbind result_bind].
  - destruct (_ <? _)%Z; [discriminate|].
    destruct (clean_copy msg) as [copy|e'] eqn:Hcopy.
    + unfold clean_copy in Hcopy.
      destruct (py.dict_getitem msg "role") as [role|]; [|discriminate].
      destruct (py.dict_getitem msg "content") as [content|]; [|discriminate].
      cbn [mbind result_bind]. intros Hloop.
      apply IH in Hloop as [[-> Hex]|(msg' & Hin & Hraise)].
      * left. split; [reflexivity | by apply Exists_cons_tl].
      * right. exists msg'. split; [by right | exact Hraise].
    + pose proof (clean_copy_raises _ _ Hcopy) as [-> Hbad].
      unfold clean_copy in Hcopy.
      destruct (py.dict_getitem msg "role") as [role|e1]; cbn [mbind result_bind] in *.
      * destruct (py.dict_getitem msg "content") as [content|e2];
          cbn [mbind result_bind] in *; [discriminate|].
        injection Hcopy as ->. intros [= <-].
        left. split; [reflexivity | by apply Exists_cons_hd].
      * injection Hcopy as ->. intros [= <-].
        left. split; [reflexivity | by apply Exists_cons_hd].
  - intros [= <-]. right. exists msg. split; [left | exact Hn].
Qed.

(** What the selector returns, in terms of the messages that pass the budget
    test: their clean copies, oldest first; it returns when the tokenizer
    encodes the texts it reads and the copies can be made. *)
Lemma select_recent_spec (history selected : list Message) (max_tokens : Z) :
  select_recent_messages_within_budget history max_tokens = Ok selected
  <-> reads_encodable (reverse history) 0 max_tokens
      /\ Forall2 (fun msg copy => clean_copy msg = Ok copy)
           (reverse (recent_within (reverse history) 0 max_tokens)) selected.
Proof.
  unfold select_recent_messages_within_budget. split.
  - destruct (select_recent_loop (reverse history) [] 0 max_tokens)
      as [result|e] eqn:Hloop; cbn [mbind result_bind mret result_ret];
      [|discriminate].
    intros [= <-].
    apply select_recent_loop_closed in Hloop as (Hread & copies & Hcopies & ->).
    split; [exact Hread|]. cbn [app].
    apply Forall2_reverse. by apply mapM_result_Forall2.
  - intros [Hread Hsel]. rewrite (select_recent_loop_returns _ _ _ _ Hread).
    apply Forall2_reverse in Hsel. rewrite reverse_involutive in Hsel.
    apply mapM_result_Forall2 in Hsel. rewrite Hsel.
    cbn [mbind result_bind mret result_ret app]. by rewrite reverse_involutive.
Qed.

(** The selector returns when every turn has the two keys it reads and the
    tokenizer encodes the text of every turn. *)
Lemma select_recent_returns (history : list Message) (max_tokens : Z) :
  Forall has_role_content history ->
  Forall (fun msg => encodable (message_text msg)) history ->
  exists selected,
    select_recent_messages_within_budget history max_tokens = Ok selected.
Proof.
  intros Hkeys Hall.
  pose proof (recent_within_prefix (reverse history) 0 max_tokens) as [rest Hrest].
  assert (Hkept : Forall has_role_content
                    (reverse (recent_within (reverse history) 0 max_tokens))).
  { apply Forall_reverse. apply Forall_reverse in Hkeys.
    rewrite Hrest in Hkeys. by apply Forall_app in Hkeys as [Hkept _]. }
  destruct (mapM_clean_copy_total _ Hkept) as [selected Hsel].
  exists selected. apply select_recent_spec. split.
  - apply reads_encodable_all. by apply Forall_reverse.
  - by apply mapM_result_Forall2.
Qed.

(** What the selector raises. *)
Lemma select_recent_raises (history : list Message) (max_tokens : Z) (e : exn) :
  select_recent_messages_within_budget history max_tokens = Raise e ->
  (e = KeyError /\ Exists (fun msg => ~ has_role_content msg) history)
  \/ (exists msg, msg ∈ history /\ count_tokens (message_text msg) = Raise e).
Proof.
  unfold select_recent_messages_within_budget.
  destruct (select_recent_loop (reverse history) [] 0 max_tokens)
    as [returned|e'] eqn:Hloop; cbn [mbind result_bind mret result_ret];
    [discriminate|].
  intros [= <-].
  apply select_recent_loop_raises in Hloop as [[-> Hex]|(msg & Hin & Hraise)].
  - left. split; [reflexivity|].
    apply Exists_exists in Hex as (msg & Hin & Hbad).
    apply Exists_exists. exists msg. split; [by apply elem_of_reverse | exact Hbad].
  - right. exists msg. split; [by apply elem_of_reverse | exact Hraise].
Qed.

(** The suffix of the history that passes the budget test: the tokenizer has
    counted it, it fits the budget, and the turn before it does not fit. *)
Lemma select_recent_kept (history selected : list Message) (max_tokens : Z) :
  select_recent_messages_within_budget history max_tokens = Ok selected ->
  exists older kept n,
    history = older ++ kept
    /\ kept = reverse (recent_within (reverse history) 0 max_tokens)
    /\ Forall2 (fun msg copy => clean_copy msg = Ok copy) kept selected
    /\ count_message_list_tokens kept = Ok n
    /\ (kept = [] \/ (Z.of_nat n <= max_tokens)%Z)
    /\ (forall older' msg,
          older = older' ++ [msg] ->
          exists m,
            count_message_list_tokens [msg] = Ok m
            /\ (max_tokens < Z.of_nat (n + m))%Z).
Proof.
  intros Hsel. apply select_recent_spec in Hsel as [[Hread Hnext] Hsel].
  pose proof (recent_within_prefix (reverse history) 0 max_tokens) as [rest Hrest].
  set (within := recent_within (reverse history) 0 max_tokens) in *.
  assert (Hhist : history = reverse rest ++ reverse within).
  { rewrite <- reverse_app, <- Hrest. by rewrite reverse_involutive. }
  exists (reverse rest), (reverse within), (messages_tokens within).
  split; [exact Hhist|]. split; [reflexivity|]. split; [exact Hsel|]. split; [|split].
  - rewrite count_message_list_tokens_ok by (by apply Forall_reverse).
    by rewrite messages_tokens_reverse.
  - destruct within as [|msg taken] eqn:Hwithin; [by left|]. right.
    pose proof (recent_within_fits (reverse history) 0 max_tokens) as Hfit.
    fold within in Hfit. rewrite Hwithin in Hfit.
    specialize (Hfit ltac:(discriminate)). simpl in Hfit. exact Hfit.
  - intros older' msg Holder.
    assert (Hr : rest = msg :: reverse older').
    { rewrite <- (reverse_involutive rest), Holder. apply reverse_snoc. }
    rewrite Hr in Hrest.
    destruct (Hnext msg (reverse older') Hrest) as [m Hm].
    exists m. rewrite count_message_list_tokens_single. split; [exact Hm|].
    apply recent_within_stops in Hrest. fold within in Hrest.
    rewrite (messages_tokens_single _ _ Hm) in Hrest. simpl in Hrest. lia.
Qed.

(** C2 (as amended). For every history and every budget, what
    [select_recent_messages_within_budget] returns is a contiguous suffix of
    the history in which every turn is replaced by a fresh dictionary carrying
    only its role and its content. The suffix is the longest one that fits:
    its token cost is within the budget unless it is empty, and with the turn
    before it the cost is above the budget. The call returns whenever every
    turn has the two keys and the tokenizer encodes the text of every turn. If
    the budget is at least the token cost of the whole history, the result is
    the whole history so copied; if the budget is below the cost of the most
    recent turn, the result is empty: the turn is dropped, not cut. On a
    history whose turns carry exactly the two keys, the result is literally a
    suffix of the history, and the history itself when the budget covers
    it. *)
Theorem select_recent_clean_suffix (history : list Message) (max_tokens : Z) :
  (forall selected,
     select_recent_messages_within_budget history max_tokens = Ok selected ->
     exists older kept n,
       history = older ++ kept
       /\ Forall2 (fun msg copy => clean_copy msg = Ok copy) kept selected
       /\ count_message_list_tokens kept = Ok n
       /\ (kept = [] \/ (Z.of_nat n <= max_tokens)%Z)
       /\ (forall older' msg,
             older = older' ++ [msg] ->
             exists m,
               count_message_list_tokens [msg] = Ok m
               /\ (max_tokens < Z.of_nat (n + m))%Z))
  /\ (Forall has_role_content history ->
      Forall (fun msg => encodable (message_text msg)) history ->
      exists selected,
        select_recent_messages_within_budget history max_tokens = Ok selected)
  /\ (forall n,
        count_message_list_tokens history = Ok n ->
        (Z.of_nat n <= max_tokens)%Z ->
        Forall has_role_content history ->
        exists selected,
          select_recent_messages_within_budget history max_tokens = Ok selected
          /\ Forall2 (fun msg copy => clean_copy msg = Ok copy) history selected)
  /\ (forall older msg m,
        history = older ++ [msg] ->
        count_message_list_tokens [msg] = Ok m ->
        (max_tokens < Z.of_nat m)%Z ->
        select_recent_messages_within_budget history max_tokens = Ok [])
  /\ (Forall (fun msg => exists role content, msg = turn role content) history ->
      forall selected,
        select_recent_messages_within_budget history max_tokens = Ok selected ->
        selected `suffix_of` history
        /\ (forall n,
              count_message_list_tokens history = Ok n ->
              (Z.of_nat n <= max_tokens)%Z ->
              selected = history)).
Proof.
  assert (Hall : forall n,
            count_message_list_tokens history = Ok n ->
            (Z.of_nat n <= max_tokens)%Z ->
            reverse (recent_within (reverse history) 0 max_tokens) = history).
  { intros n Hn Hfit. apply count_message_list_tokens_inv in Hn as [_ ->].
    rewrite recent_within_all; [apply reverse_involutive|].
    rewrite messages_tokens_reverse. lia. }
  split; [|split; [|split; [|split]]].
  - intros selected Hsel.
    destruct (select_recent_kept _ _ _ Hsel)
      as (older & kept & n & Hhist & _ & Hcopies & Hn & Hfit & Hstop).
    by exists older, kept, n.
  - apply select_recent_returns.
  - intros n Hn Hfit Hkeys.
    pose proof (count_message_list_tokens_inv _ _ Hn) as [Hencodable _].
    destruct (select_recent_returns history max_tokens Hkeys Hencodable)
      as [selected Hsel].
    exists selected. split; [exact Hsel|].
    apply select_recent_spec in Hsel as [_ Hsel]. by rewrite (Hall n Hn Hfit) in Hsel.
  - intros older msg m -> Hm Hover. apply select_recent_spec.
    rewrite count_message_list_tokens_single in Hm.
    unfold reads_encodable. rewrite reverse_snoc. cbn [recent_within].
    rewrite (messages_tokens_single _ _ Hm).
    destruct (_ <? _)%Z eqn:Hb; [|apply Z.ltb_ge in Hb; lia].
    split; [|constructor]. split; [constructor|].
    intros msg' rest Hsplit. simpl in Hsplit. injection Hsplit as <- _.
    by exists m.
  - intros Hturns selected Hsel.
    destruct (select_recent_kept _ _ _ Hsel)
      as (older & kept & n & Hhist & Hkept & Hcopies & _).
    assert (Hsame : selected = kept).
    { rewrite Hhist in Hturns. apply Forall_app in Hturns as [_ Hturns].
      apply turns_are_their_copies in Hturns.
      by apply (clean_copies_unique kept). }
    split.
    + rewrite Hsame. by exists older.
    + intros n' Hn' Hfit. by rewrite Hsame, Hkept, (Hall n' Hn' Hfit).
Qed.

(** ** The prompt assembler *)

(** Runs the binds of an [Eff] computation applied to a world. *)
Ltac eff_run :=
  unfold lift, get_chat_history, add_message, vector_store_is_empty,
    vector_store_search, vector_store_add;
  unfold mbind, mret, Eff_bind, Eff_ret; cbn beta iota zeta.

Lemma build_vector_memory_context_reads (question : string) (w : World) :
  fst (build_vector_memory_context question w) = w.
Proof.
  unfold build_vector_memory_context. eff_run.
  destruct (store_is_empty (vector_store w)); [reflexivity|].
  destruct (embed_text question) as [query_emb|e]; [|reflexivity].
  destruct (store_search (vector_store w) query_emb 5); reflexivity.
Qed.

(** What the retrieval returns on a store that holds entries. *)
Lemma build_vector_memory_context_ok (question : string) (w w' : World)
    (qa_context : list (string * string)) :
  store_is_empty (vector_store w) = false ->
  build_vector_memory_context question w = (w', Ok qa_context) ->
  exists query_emb retrieved,
    embed_text question = Ok query_emb
    /\ store_search (vector_store w) query_emb 5 = Ok retrieved
    /\ select_vector_qa_within_budget retrieved MAX_VECTOR_QA_TOKENS = Ok qa_context.
Proof.
  intros Hfilled. unfold build_vector_memory_context. eff_run. rewrite Hfilled.
  destruct (embed_text question) as [query_emb|e] eqn:Hemb; [|discriminate].
  destruct (store_search (vector_store w) query_emb 5) as [retrieved|e] eqn:Hsearch;
    [|discriminate].
  intros [= _ Hselect]. by exists query_emb, retrieved.
Qed.

Lemma build_vector_memory_context_empty (question : string) (w : World) :
  store_is_empty (vector_store w) = true ->
  build_vector_memory_context question w = (w, Ok []).
Proof.
  intros Hempty.
  unfold build_vector_memory_context. eff_run. by rewrite Hempty.
Qed.

(** The list that the assembler returns when none of its calls raises. *)
Lemma build_messages_for_model_ok (conversation_id question : string) (w w' : World)
    (messages : list Message) :
  build_messages_for_model conversation_id question w = (w', Ok messages) ->
  exists history qa_context recent_history,
    w' = w
    /\ database_get_messages conversation_id (database w) = Ok history
    /\ build_vector_memory_context question w = (w, Ok qa_context)
    /\ select_recent_messages_within_budget history MAX_HISTORY_TOKENS = Ok recent_history
    /\ messages
       = ([turn "system" SYSTEM_INSTRUCTION]
          ++ match qa_context with
             | [] => []
             | _ :: _ => [qa_context_message qa_context]
             end)
         ++ recent_history ++ [turn "user" question].
Proof.
  unfold build_messages_for_model. eff_run.
  destruct (database_get_messages conversation_id (database w)) as [history|e];
    [|discriminate].
  pose proof (build_vector_memory_context_reads question w) as Hreads.
  destruct (build_vector_memory_context question w) as [w1 [qa_context|e]];
    simpl in Hreads; subst w1; [|discriminate].
  destruct (select_recent_messages_within_budget history MAX_HISTORY_TOKENS)
    as [recent_history|e] eqn:Hrecent; [|discriminate].
  intros [= <- <-]. exists history, qa_context, recent_history.
  split; [reflexivity|]. split; [reflexivity|]. split; [reflexivity|].
  split; [exact Hrecent|].
  destruct qa_context; simpl; by rewrite <- ?app_assoc.
Qed.

(** C1. Whatever the conversation and the question, a message list returned
    by [build_messages_for_model] starts with the system instruction (role
    [system]), ends with the turn of role [user] whose content is the
    question, and has at least two elements; the call leaves the world as it
    was. It returns whenever the history is fetched with the two keys on every
    turn, the store is empty or the embedding and the search succeed, and the
    tokenizer encodes the texts it is given: the text of every turn and the
    block of every retrieved pair. With an empty store and an empty history
    the result is exactly the system instruction followed by the question. *)
Theorem build_messages_for_model_shape (conversation_id question : string) (w : World) :
  (forall w' messages,
     build_messages_for_model conversation_id question w = (w', Ok messages) ->
     w' = w
     /\ (exists first,
           head messages = Some first
           /\ first = turn "system" SYSTEM_INSTRUCTION
           /\ first !! "role" = Some "system")
     /\ (exists final,
           last messages = Some final
           /\ final !! "role" = Some "user"
           /\ final !! "content" = Some question)
     /\ 2 <= length messages)
  /\ (forall history,
        database_get_messages conversation_id (database w) = Ok history ->
        Forall has_role_content history ->
        Forall (fun msg => encodable (message_text msg)) history ->
        store_is_empty (vector_store w) = true
        \/ (exists query_emb retrieved,
              embed_text question = Ok query_emb
              /\ store_search (vector_store w) query_emb 5 = Ok retrieved
              /\ Forall (fun qa => encodable (pair_text qa)) retrieved) ->
        exists messages,
          build_messages_for_model conversation_id question w = (w, Ok messages))
  /\ (store_is_empty (vector_store w) = true ->
      database_get_messages conversation_id (database w) = Ok [] ->
      build_messages_for_model conversation_id question w
      = (w, Ok [turn "system" SYSTEM_INSTRUCTION; turn "user" question])).
Proof.
  split; [|split].
  - intros w' messages Hbuild.
    apply build_messages_for_model_ok in Hbuild
      as (history & qa_context & recent_history & -> & _ & _ & _ & ->).
    split; [reflexivity|]. split; [|split].
    + eexists. split; [reflexivity|]. split; [reflexivity | apply turn_role].
    + exists (turn "user" question).
      split; [rewrite app_assoc; apply last_snoc|].
      split; [apply turn_role | apply turn_content].
    + rewrite !length_app; simpl. lia.
  - intros history Hhistory Hkeys Hencodable Hstore.
    destruct (select_recent_returns history MAX_HISTORY_TOKENS Hkeys Hencodable)
      as [recent_history Hrecent].
    unfold build_messages_for_model. eff_run. rewrite Hhistory.
    assert (Hctx : exists qa_context,
               build_vector_memory_context question w = (w, Ok qa_context)).
    { destruct Hstore as [Hempty|(query_emb & retrieved & Hemb & Hsearch & Hpairs)].
      - exists []. by apply build_vector_memory_context_empty.
      - unfold build_vector_memory_context. eff_run.
        destruct (store_is_empty (vector_store w)); [by eexists|].
        rewrite Hemb, Hsearch. unfold select_vector_qa_within_budget.
        rewrite (select_vector_qa_loop_returns _ _ _ _ Hpairs). by eexists. }
    destruct Hctx as [qa_context ->]. rewrite Hrecent. by eexists.
  - intros Hempty Hhistory.
    unfold build_messages_for_model. eff_run.
    rewrite Hhistory, (build_vector_memory_context_empty question w Hempty).
    reflexivity.
Qed.

(** ** The post-response update *)

Lemma store_add_outcome (self : FaissQAVectorStore) (question answer : string)
    (embedding : list faiss.float32) :
  (exists self',
     store_add self question answer embedding = (self', Ok tt)
     /\ _questions self' = _questions self ++ [question]
     /\ _answers self' = _answers self ++ [answer])
  \/ store_add self question answer embedding = (self, Raise AssertionError).
Proof.
  destruct (_index self) as [index|] eqn:Hindex.
  - destruct (decide (length embedding = faiss.d index)) as [Hdim|Hdim].
    + left. rewrite (store_add_next _ _ _ _ _ Hindex Hdim). by eexists.
    + right. by apply (store_add_mismatch _ index).
  - left. rewrite (store_add_first _ _ _ _ Hindex). by eexists.
Qed.

(** C9. [update_memories_after_response] first hands the question to the
    persistence call of the database layer with role [user], then the answer
    with role [assistant], on the database that the first call left. When
    both calls return, the database is the one they produced whatever happens
    afterwards, and the store changes only if the heuristic accepts the
    exchange: it is then handed the question, the answer and the embedding of
    the question, and gains exactly that entry when the embedding call and the
    insertion succeed; when the heuristic rejects the exchange the store is
    left as it was. An exception of the embedding call or of the insertion is
    propagated with the two turns still persisted and the store unchanged; an
    exception of a persistence call is propagated with the store unchanged. *)
Theorem update_memories_after_response_steps
    (conversation_id question answer : string) (w : World) :
  let after := update_memories_after_response conversation_id question answer w in
  (forall db1 db2,
     database_add_message conversation_id "user" question (database w) = (db1, Ok tt) ->
     database_add_message conversation_id "assistant" answer db1 = (db2, Ok tt) ->
     database (fst after) = db2
     /\ (should_store_in_vector_memory question answer = false ->
         after = (mkWorld db2 (vector_store w), Ok tt))
     /\ (should_store_in_vector_memory question answer = true ->
         forall q_emb, embed_text question = Ok q_emb ->
           (vector_store (fst after), snd after)
           = store_add (vector_store w) question answer q_emb)
     /\ (should_store_in_vector_memory question answer = true ->
         forall x, embed_text question = Raise x ->
           after = (mkWorld db2 (vector_store w), Raise x))
     /\ (snd after = Ok tt ->
         _questions (vector_store (fst after))
         = _questions (vector_store w)
           ++ (if should_store_in_vector_memory question answer then [question] else [])
         /\ _answers (vector_store (fst after))
            = _answers (vector_store w)
              ++ (if should_store_in_vector_memory question answer then [answer] else []))
     /\ (forall x, snd after = Raise x -> vector_store (fst after) = vector_store w))
  /\ (forall db1 x,
        database_add_message conversation_id "user" question (database w)
        = (db1, Raise x) ->
        after = (mkWorld db1 (vector_store w), Raise x))
  /\ (forall db1 db2 x,
        database_add_message conversation_id "user" question (database w)
        = (db1, Ok tt) ->
        database_add_message conversation_id "assistant" answer db1
        = (db2, Raise x) ->
        after = (mkWorld db2 (vector_store w), Raise x)).
Proof.
  intros after. subst after. unfold update_memories_after_response. eff_run.
  split; [|split].
  - intros db1 db2 Huser Hassistant. rewrite Huser; cbn. rewrite Hassistant; cbn.
    destruct (should_store_in_vector_memory question answer) eqn:Hkeep; cbn.
    + destruct (embed_text question) as [q_emb|x] eqn:Hemb; cbn.
      * destruct (store_add_outcome (vector_store w) question answer q_emb)
          as [(self' & Hadd & Hq & Ha)|Hadd]; rewrite Hadd; cbn.
        -- split; [reflexivity|]. split; [discriminate|].
           split; [intros _ q_emb' [= <-]; by rewrite Hadd|].
           split; [discriminate|]. split; [by intros _|discriminate].
        -- split; [reflexivity|]. split; [discriminate|].
           split; [intros _ q_emb' [= <-]; by rewrite Hadd|].
           split; [discriminate|]. split; [discriminate|]. by intros x _.
      * split; [reflexivity|]. split; [discriminate|].
        split; [discriminate|]. split; [by intros _ x' [= <-]|].
        split; [discriminate|]. by intros x' _.
    + split; [reflexivity|]. split; [by intros _|].
      split; [discriminate|]. split; [discriminate|].
      split; [intros _; by rewrite !app_nil_r | discriminate].
  - intros db1 x Huser. by rewrite Huser.
  - intros db1 db2 x Huser Hassistant. rewrite Huser; cbn. by rewrite Hassistant.
Qed.

(** * Further properties of the engine *)

(** ** Token cost of a message list *)

Lemma count_message_list_tokens_loop_app (l1 l2 : list Message) (total : nat) :
  count_message_list_tokens_loop (l1 ++ l2) total
  = (n1 ← count_message_list_tokens_loop l1 total;
     count_message_list_tokens_loop l2 n1).
Proof.
  revert total. induction l1 as [|msg l1 IH]; intros total; simpl; [reflexivity|].
  destruct (count_tokens (message_text msg)); simpl; [apply IH | reflexivity].
Qed.

Lemma count_message_list_tokens_loop_from (l : list Message) (total : nat) :
  count_message_list_tokens_loop l total
  = (n ← count_message_list_tokens_loop l 0; mret (total + n)).
Proof.
  destruct (count_message_list_tokens_loop l 0) as [n|e] eqn:Hl.
  - apply count_message_list_tokens_loop_inv in Hl as [Hall ->].
    by rewrite count_message_list_tokens_loop_ok.
  - destruct (count_message_list_tokens_loop l total) as [n|e'] eqn:Hl'.
    + apply count_message_list_tokens_loop_inv in Hl' as [Hall _].
      rewrite count_message_list_tokens_loop_ok in Hl by exact Hall. discriminate.
    + cbn. f_equal. revert total Hl Hl'. generalize 0.
      induction l as [|msg l IH]; intros n total; simpl; [discriminate|].
      destruct (count_tokens (message_text msg)); simpl; [apply IH | congruence].
Qed.

(** X1. The token cost of a message list is the sum of the costs of its
    messages, so it is additive over concatenation and does not depend on the
    order; the cost of a message depends on its role and its content only (an
    absent key is charged like an empty text, other keys are not charged), so
    the role/content copies that the history selector makes cost what the
    original turns cost. An exception of the tokenizer is propagated: the
    first one, in the order of the list. *)
Theorem count_message_list_tokens_reads_role_content (l1 l2 : list Message) :
  count_message_list_tokens (l1 ++ l2)
  = (n1 ← count_message_list_tokens l1;
     n2 ← count_message_list_tokens l2;
     mret (n1 + n2))
  /\ (forall n,
        count_message_list_tokens (reverse l1) = Ok n
        <-> count_message_list_tokens l1 = Ok n)
  /\ (forall msg msg' : Message,
        py.dict_get msg "role" "" = py.dict_get msg' "role" "" ->
        py.dict_get msg "content" "" = py.dict_get msg' "content" "" ->
        count_message_list_tokens [msg] = count_message_list_tokens [msg'])
  /\ (forall copies,
        Forall2 (fun msg copy => clean_copy msg = Ok copy) l1 copies ->
        count_message_list_tokens copies = count_message_list_tokens l1)
  /\ (forall e,
        count_message_list_tokens l1 = Raise e ->
        exists older msg rest,
          l1 = older ++ msg :: rest
          /\ (exists n, count_message_list_tokens older = Ok n)
          /\ count_tokens (message_text msg) = Raise e).
Proof.
  split; [|split; [|split; [|split]]].
  - unfold count_message_list_tokens.
    rewrite count_message_list_tokens_loop_app.
    destruct (count_message_list_tokens_loop l1 0) as [n1|e]; [|reflexivity].
    cbn [mbind result_bind]. apply count_message_list_tokens_loop_from.
  - intros n. split; intros Hn.
    + apply count_message_list_tokens_inv in Hn as [Hall ->].
      apply Forall_reverse in Hall. rewrite reverse_involutive in Hall.
      by rewrite count_message_list_tokens_ok, messages_tokens_reverse.
    + apply count_message_list_tokens_inv in Hn as [Hall ->].
      apply Forall_reverse in Hall.
      by rewrite count_message_list_tokens_ok, messages_tokens_reverse.
  - intros msg msg' Hrole Hcontent.
    rewrite !count_message_list_tokens_single.
    by rewrite (message_text_same_keys msg msg').
  - apply count_clean_copies.
  - unfold count_message_list_tokens. generalize 0.
    induction l1 as [|msg l1 IH]; intros total e; simpl; [discriminate|].
    destruct (count_tokens (message_text msg)) as [n|e'] eqn:Hmsg; simpl.
    + intros Hloop. apply IH in Hloop as (older & msg' & rest & -> & [m Hm] & Hraise).
      exists (msg :: older), msg', rest. split; [reflexivity|]. split; [|exact Hraise].
      simpl. rewrite Hmsg; simpl. by exists m.
    + intros [= <-]. exists [], msg, l1. split; [reflexivity|]. split; [|exact Hmsg].
      by exists total.
Qed.

(** ** The history selector: budget, format, errors, monotonicity *)

(** X2. What [select_recent_messages_within_budget] returns fits the budget:
    counting the tokens of the returned list succeeds, the count is at most
    [max_tokens] unless the list is empty, and a negative budget selects
    nothing. *)
Theorem select_recent_fits_budget (history selected : list Message) (max_tokens : Z) :
  select_recent_messages_within_budget history max_tokens = Ok selected ->
  (exists n,
     count_message_list_tokens selected = Ok n
     /\ (selected = [] \/ (Z.of_nat n <= max_tokens)%Z))
  /\ ((max_tokens < 0)%Z -> selected = []).
Proof.
  intros Hsel.
  destruct (select_recent_kept _ _ _ Hsel)
    as (older & kept & n & _ & Hkept & Hcopies & Hn & Hfit & _).
  split.
  - exists n. rewrite (count_clean_copies _ _ Hcopies). split; [exact Hn|].
    destruct Hfit as [->|Hfit]; [left; by inversion Hcopies | by right].
  - intros Hneg. rewrite recent_within_negative in Hkept by (simpl; lia).
    rewrite Hkept in Hcopies. by inversion Hcopies.
Qed.

(** X3. Every message that the history selector returns is a dictionary with
    exactly the keys [role] and [content]; and the selector is idempotent:
    applied with the same budget to its own result, it returns that result. *)
Theorem select_recent_output_is_clean (history selected : list Message) (max_tokens : Z) :
  select_recent_messages_within_budget history max_tokens = Ok selected ->
  Forall (fun msg => exists role content,
              msg = turn role content
              /\ dom msg = ({[ "role"; "content" ]} : gset string)) selected
  /\ select_recent_messages_within_budget selected max_tokens = Ok selected.
Proof.
  intros Hsel.
  destruct (select_recent_kept _ _ _ Hsel)
    as (older & kept & n & _ & _ & Hcopies & Hn & Hfit & _).
  pose proof (clean_copies_are_turns _ _ Hcopies) as Hturns.
  split.
  - eapply Forall_impl; [exact Hturns|].
    intros msg (role & content & ->). exists role, content. split; [reflexivity|].
    unfold turn. rewrite dom_insert_L, dom_singleton_L. reflexivity.
  - rewrite <- (count_clean_copies _ _ Hcopies) in Hn.
    apply count_message_list_tokens_inv in Hn as [Hencodable ->].
    apply select_recent_spec.
    assert (Hall : recent_within (reverse selected) 0 max_tokens = reverse selected).
    { destruct Hfit as [->|Hfit]; [by inversion Hcopies|].
      apply recent_within_all. rewrite messages_tokens_reverse. simpl. lia. }
    split.
    + apply reads_encodable_all. by apply Forall_reverse.
    + rewrite Hall, reverse_involutive. by apply turns_are_their_copies.
Qed.

Lemma next_after_prefix {A : Type} (p l1 l2 rest : list A) (x y : A) :
  p `prefix_of` l1 ->
  l1 ++ x :: l2 = p ++ y :: rest ->
  y ∈ l1 ++ [x].
Proof.
  intros [k ->]. rewrite <- app_assoc. intros Heq. apply app_inv_head in Heq.
  destruct k as [|z k]; simpl in Heq; injection Heq as <- _.
  - rewrite app_nil_r. apply elem_of_app. right. left.
  - apply elem_of_app. left. apply elem_of_app. right. left.
Qed.

(** X4. The history selector raises nothing but [KeyError], because a turn of
    the history lacks [role] or [content], and what the tokenizer raises on
    the text of a turn. A most recent turn that fits the budget and lacks one
    of the two keys makes the call raise [KeyError]. A turn that lies before
    the turn at which the budget overflows is never read: it may lack the
    keys, and the tokenizer may refuse its text. *)
Theorem select_recent_key_error (history : list Message) (max_tokens : Z) :
  (forall e,
     select_recent_messages_within_budget history max_tokens = Raise e ->
     (e = KeyError /\ Exists (fun msg => ~ has_role_content msg) history)
     \/ (exists msg, msg ∈ history /\ count_tokens (message_text msg) = Raise e))
  /\ (forall older msg n,
        history = older ++ [msg] ->
        count_message_list_tokens [msg] = Ok n ->
        (Z.of_nat n <= max_tokens)%Z ->
        ~ has_role_content msg ->
        select_recent_messages_within_budget history max_tokens = Raise KeyError)
  /\ (forall older msg kept n,
        history = older ++ msg :: kept ->
        Forall has_role_content kept ->
        count_message_list_tokens (msg :: kept) = Ok n ->
        (max_tokens < Z.of_nat n)%Z ->
        exists selected,
          select_recent_messages_within_budget history max_tokens = Ok selected).
Proof.
  split; [|split].
  - intros e. apply select_recent_raises.
  - intros older msg n -> Hn Hfit Hbad.
    rewrite count_message_list_tokens_single in Hn.
    unfold select_recent_messages_within_budget.
    rewrite reverse_snoc. cbn [select_recent_loop].
    rewrite count_message_list_tokens_single, Hn. cbn [mbind result_bind].
    destruct (_ <? _)%Z eqn:Hb; [apply Z.ltb_lt in Hb; lia|].
    unfold py.dict_getitem.
    destruct (msg !! "role") as [role|] eqn:Hrole; [|reflexivity].
    destruct (msg !! "content") as [content|] eqn:Hcontent; [|reflexivity].
    exfalso. apply Hbad. split; by eexists.
  - intros older msg kept n -> Hkeys Hn Hover.
    apply count_message_list_tokens_inv in Hn as [Hencodable ->].
    rewrite messages_tokens_cons in Hover.
    assert (Hpre : recent_within (reverse (older ++ msg :: kept)) 0 max_tokens
                   `prefix_of` reverse kept).
    { apply (recent_within_stops_before _ (reverse kept) (reverse older) msg).
      - rewrite reverse_app, reverse_cons, <- app_assoc. reflexivity.
      - rewrite messages_tokens_reverse. lia. }
    assert (Hrev : reverse (older ++ msg :: kept)
                   = reverse kept ++ msg :: reverse older).
    { rewrite reverse_app, reverse_cons, <- app_assoc. reflexivity. }
    assert (Hread : reads_encodable (reverse (older ++ msg :: kept)) 0 max_tokens).
    { split.
      - destruct Hpre as [rest Hrest].
        inversion Hencodable as [|? ? _ Hkept]; subst.
        apply Forall_reverse in Hkept. rewrite Hrest in Hkept.
        by apply Forall_app in Hkept as [Hread _].
      - intros msg' rest' Hsplit. rewrite Hrev in Hsplit at 1.
        pose proof (next_after_prefix _ _ _ _ _ _ Hpre Hsplit) as Hin.
        rewrite Forall_forall in Hencodable. apply Hencodable.
        apply elem_of_app in Hin as [Hin|Hin].
        + right. by apply elem_of_reverse.
        + apply list_elem_of_singleton in Hin as ->. left. }
    destruct Hpre as [rest Hrest].
    assert (Htaken : Forall has_role_content
                       (recent_within (reverse (older ++ msg :: kept)) 0 max_tokens)).
    { apply Forall_reverse in Hkeys. rewrite Hrest in Hkeys.
      by apply Forall_app in Hkeys as [Htaken _]. }
    apply Forall_reverse in Htaken.
    destruct (mapM_clean_copy_total _ Htaken) as [selected Hsel].
    exists selected. apply select_recent_spec.
    split; [exact Hread | by apply mapM_result_Forall2].
Qed.

(** X5. The history selector is monotone in the budget: with a larger budget
    it returns the turns it returned with the smaller one, preceded by zero or
    more older turns. *)
Theorem select_recent_monotone (history selected selected' : list Message)
    (max_tokens max_tokens' : Z) :
  (max_tokens <= max_tokens')%Z ->
  select_recent_messages_within_budget history max_tokens = Ok selected ->
  select_recent_messages_within_budget history max_tokens' = Ok selected' ->
  selected `suffix_of` selected'.
Proof.
  intros Hle Hsel Hsel'.
  apply select_recent_spec in Hsel as [_ Hsel].
  apply select_recent_spec in Hsel' as [_ Hsel'].
  destruct (recent_within_mono (reverse history) 0 _ _ Hle) as [more Hmore].
  rewrite Hmore, reverse_app in Hsel'.
  apply Forall2_app_inv_l in Hsel' as (s1 & s2 & _ & Hs2 & ->).
  rewrite (clean_copies_unique _ _ _ Hsel Hs2). by exists s1.
Qed.

(** ** The pair selector: budget and monotonicity *)

(** X6. What [select_vector_qa_within_budget] returns fits the budget: the
    tokenizer has counted the rendered block of every selected pair, the cost
    of these blocks is at most [max_tokens] unless nothing is selected, and
    nothing is selected under a negative budget. A larger budget selects at
    least the same pairs. When the tokenizer encodes every block, a budget
    that covers the cost of all the pairs selects them all. *)
Theorem select_vector_qa_fits_budget (qa_pairs : list (string * string))
    (max_tokens : Z) :
  (forall selected,
     select_vector_qa_within_budget qa_pairs max_tokens = Ok selected ->
     Forall (fun qa => count_tokens (pair_text qa) = Ok (pair_tokens qa)) selected
     /\ (selected = [] \/ (Z.of_nat (pairs_tokens selected) <= max_tokens)%Z)
     /\ ((max_tokens < 0)%Z -> selected = [])
     /\ (forall max_tokens' selected',
           (max_tokens <= max_tokens')%Z ->
           select_vector_qa_within_budget qa_pairs max_tokens' = Ok selected' ->
           selected `prefix_of` selected'))
  /\ (Forall (fun qa => encodable (pair_text qa)) qa_pairs ->
      (Z.of_nat (pairs_tokens qa_pairs) <= max_tokens)%Z ->
      select_vector_qa_within_budget qa_pairs max_tokens = Ok qa_pairs).
Proof.
  unfold select_vector_qa_within_budget. split.
  - intros selected Hsel.
    apply select_vector_qa_loop_closed in Hsel as (-> & Hread & _). cbn [app].
    split; [|split; [|split]].
    + eapply Forall_impl; [exact Hread|]. intros qa Hqa. by apply encodable_tokens.
    + destruct (pairs_within qa_pairs 0 max_tokens) as [|qa sel] eqn:Hsel; [by left|].
      right. rewrite <- Hsel.
      apply (pairs_within_fits qa_pairs 0 max_tokens). rewrite Hsel. discriminate.
    + intros Hneg. by apply pairs_within_negative.
    + intros max_tokens' selected' Hle Hsel'.
      apply select_vector_qa_loop_closed in Hsel' as (-> & _ & _). cbn [app].
      by apply pairs_within_mono.
  - intros Hall Hfit. rewrite (select_vector_qa_loop_returns _ _ _ _ Hall). cbn [app].
    f_equal. by apply pairs_within_all.
Qed.

(** ** The store: emptiness, retrieval of every entry *)

Lemma store_step_stays_filled (self : FaissQAVectorStore) (c : store_call) :
  store_is_empty self = false -> store_is_empty (store_step self c) = false.
Proof.
  intros Hfilled. destruct c as [q a e|]; simpl; [|exact Hfilled].
  unfold store_is_empty in Hfilled.
  destruct (_index self) as [index|] eqn:Hindex; [|discriminate].
  destruct (decide (length e = faiss.d index)) as [Hdim|Hdim].
  - rewrite (store_add_next _ _ _ _ _ Hindex Hdim). unfold store_is_empty; simpl.
    unfold faiss.ntotal; simpl. rewrite length_app; simpl.
    apply Nat.eqb_neq. lia.
  - rewrite (store_add_mismatch _ _ _ _ _ Hindex Hdim). unfold store_is_empty; simpl.
    by rewrite Hindex.
Qed.

Lemma fold_store_step_stays_filled (calls : list store_call)
    (self : FaissQAVectorStore) :
  store_is_empty self = false ->
  store_is_empty (fold_left store_step calls self) = false.
Proof.
  revert self. induction calls as [|c calls IH]; intros self Hself; simpl; [done|].
  apply IH, store_step_stays_filled, Hself.
Qed.

Lemma fold_store_step_empty_iff (calls : list store_call) (self : FaissQAVectorStore) :
  _index self = None ->
  store_is_empty (fold_left store_step calls self) = true <-> Forall is_search calls.
Proof.
  revert self. induction calls as [|c calls IH]; intros self Hnone; simpl.
  - unfold store_is_empty. rewrite Hnone. split; [constructor | done].
  - destruct c as [q a e|q k]; simpl.
    + rewrite (store_add_first _ _ _ _ Hnone); simpl.
      rewrite fold_store_step_stays_filled by reflexivity.
      split; [discriminate|]. intros Hall. by inversion Hall.
    + rewrite (IH self Hnone). split.
      * intros Hall. by constructor.
      * intros Hall. by inversion Hall.
Qed.

(** X7. On a store reached from a new one by [add] and [search] calls,
    [is_empty] answers [True] exactly when no entry is stored, and exactly
    when no [add] was ever called: the first [add] always succeeds, and a
    store that holds an entry never becomes empty again. *)
Theorem store_is_empty_iff_nothing_added (calls : list store_call) :
  let self := store_run calls in
  (store_is_empty self = true <-> _questions self = [])
  /\ (store_is_empty self = true <-> Forall is_search calls).
Proof.
  intros self. pose proof (store_run_consistent calls) as [Hn Hqa].
  fold self in Hn, Hqa. split.
  - unfold store_is_empty, store_ntotal in *.
    destruct (_index self) as [index|].
    + rewrite Nat.eqb_eq, Hn. split; [apply nil_length_inv | by intros ->].
    + split; [intros _; by apply nil_length_inv | done].
  - by apply fold_store_step_empty_iff.
Qed.

(** X8. On a store reached by [add] and [search] calls, a search with a query
    of the dimension of the index and [top_k] at least the number of entries
    returns every stored (question, answer) pair exactly once: the result is a
    rearrangement of the stored entries. *)
Theorem store_search_returns_every_entry (calls : list store_call)
    (query_embedding : list faiss.float32) (top_k : Z) (index : faiss.IndexFlatIP) :
  let self := store_run calls in
  _index self = Some index ->
  length query_embedding = faiss.d index ->
  (0 < top_k)%Z ->
  (Z.of_nat (length (_questions self)) <= top_k)%Z ->
  exists results,
    store_search self query_embedding top_k = Ok results
    /\ results ≡ₚ zip (_questions self) (_answers self).
Proof.
  intros self Hindex Hdim Hpos Hk.
  pose proof (store_run_consistent calls) as Hcons. fold self in Hcons.
  destruct (Hcons) as [Hn Hqa].
  destruct (store_is_empty self) eqn:He.
  - exists []. split; [unfold store_search; by rewrite He|].
    unfold store_is_empty in He. rewrite Hindex in He. apply Nat.eqb_eq in He.
    unfold store_ntotal in Hn. rewrite Hindex, He in Hn.
    symmetry in Hn. apply nil_length_inv in Hn. by rewrite Hn.
  - destruct (store_search_spec self query_embedding top_k Hcons He)
      as (index' & Hindex' & [[[Hbad|Hbad] _]|[_ (results & Hok & Hall)]]).
    + congruence.
    + lia.
    + exists results. split; [exact Hok|].
      assert (index' = index) as -> by congruence.
      unfold store_ntotal in Hn. rewrite Hindex in Hn.
      rewrite take_ge in Hall by (rewrite ranked_length; lia).
      assert (Hzip : Forall2 (fun i qa => zip (_questions self) (_answers self) !! i
                                          = Some qa)
                       (faiss.ranked index (faiss.normalize_L2 query_embedding))
                       results).
      { eapply Forall2_impl; [exact Hall|].
        intros i [q a] [Hq Ha]. by apply lookup_zip_Some. }
      destruct (Permutation_Forall2 (ranked_positions index _) Hzip)
        as (results' & Hperm & Hseq).
      rewrite Hperm. rewrite Hn in Hseq.
      assert (Hlen : length (_questions self)
                     = length (zip (_questions self) (_answers self))).
      { rewrite length_zip_with. lia. }
      rewrite Hlen in Hseq. by rewrite (read_by_position _ _ Hseq).
Qed.

(** ** The retrieved context *)

(** X10. On a store reached by [add] and [search] calls,
    [build_vector_memory_context] changes nothing and returns at most five
    pairs, each the question and the answer stored at one position, whose
    rendered blocks the tokenizer has counted and which fit
    [MAX_VECTOR_QA_TOKENS] together; on an empty store it returns the empty
    list without calling the embedding endpoint. *)
Theorem build_vector_memory_context_bounds (question : string) (w w' : World)
    (calls : list store_call) (qa_context : list (string * string)) :
  vector_store w = store_run calls ->
  build_vector_memory_context question w = (w', Ok qa_context) ->
  w' = w
  /\ length qa_context <= 5
  /\ Forall (fun qa => count_tokens (pair_text qa) = Ok (pair_tokens qa)) qa_context
  /\ (qa_context = []
      \/ (Z.of_nat (pairs_tokens qa_context) <= MAX_VECTOR_QA_TOKENS)%Z)
  /\ Forall (fun qa => exists i,
                 _questions (vector_store w) !! i = Some (fst qa)
                 /\ _answers (vector_store w) !! i = Some (snd qa)) qa_context
  /\ (store_is_empty (vector_store w) = true -> qa_context = []).
Proof.
  intros Hstore Hbuild.
  pose proof (build_vector_memory_context_reads question w) as Hreads.
  rewrite Hbuild in Hreads. simpl in Hreads. subst w'.
  split; [reflexivity|].
  destruct (store_is_empty (vector_store w)) eqn:He.
  - rewrite (build_vector_memory_context_empty question w He) in Hbuild.
    injection Hbuild as <-. simpl. repeat split; try lia; auto.
  - destruct (build_vector_memory_context_ok _ _ _ _ He Hbuild)
      as (query_emb & retrieved & _ & Hsearch & Hselect).
    assert (Hcons : store_consistent (vector_store w))
      by (rewrite Hstore; apply store_run_consistent).
    destruct (store_search_spec (vector_store w) query_emb 5 Hcons He)
      as (index & Hindex & [[_ Hraise]|[_ (results & Hok & Hall)]]); [congruence|].
    assert (results = retrieved) as -> by congruence.
    unfold select_vector_qa_within_budget in Hselect.
    apply select_vector_qa_loop_closed in Hselect as (-> & Hread & _). cbn [app].
    destruct (pairs_within_prefix retrieved 0 MAX_VECTOR_QA_TOKENS) as [rest Hprefix].
    assert (Hlen : length retrieved <= 5).
    { apply Forall2_length in Hall. rewrite <- Hall, length_take. lia. }
    assert (Hstored : Forall (fun qa => exists i,
                          _questions (vector_store w) !! i = Some (fst qa)
                          /\ _answers (vector_store w) !! i = Some (snd qa)) retrieved).
    { clear -Hall. induction Hall as [|i qa best rest' Hqa _ IH]; constructor;
        [by exists i | exact IH]. }
    rewrite Hprefix in Hlen, Hstored. rewrite length_app in Hlen.
    apply Forall_app in Hstored as [Hstored _].
    split; [lia|]. split.
    { eapply Forall_impl; [exact Hread|]. intros qa Hqa. by apply encodable_tokens. }
    split; [|split; [exact Hstored | discriminate]].
    destruct (pairs_within retrieved 0 MAX_VECTOR_QA_TOKENS) as [|qa sel] eqn:Hsel;
      [by left|].
    right. rewrite <- Hsel.
    apply (pairs_within_fits retrieved 0 MAX_VECTOR_QA_TOKENS).
    rewrite Hsel. discriminate.
Qed.

(** ** The assembled prompt *)

(** X11. The list that [build_messages_for_model] returns is made of the
    system instruction, then at most one context message with role [system],
    then the role/content copies of a suffix of the fetched history in their
    original order, then the question: it has at most [3 + len(history)]
    messages. When the token cost of the fetched history is within
    [MAX_HISTORY_TOKENS], every turn of the history appears, in order, right
    before the question. *)
Theorem build_messages_keeps_history_order (conversation_id question : string)
    (w w' : World) (messages history : list Message) :
  build_messages_for_model conversation_id question w = (w', Ok messages) ->
  database_get_messages conversation_id (database w) = Ok history ->
  exists front older kept copies,
    messages = front ++ copies ++ [turn "user" question]
    /\ (front = [turn "system" SYSTEM_INSTRUCTION]
        \/ exists context,
             front = [turn "system" SYSTEM_INSTRUCTION; context]
             /\ context !! "role" = Some "system")
    /\ history = older ++ kept
    /\ Forall2 (fun msg copy => clean_copy msg = Ok copy) kept copies
    /\ length messages <= 3 + length history
    /\ (forall n,
          count_message_list_tokens history = Ok n ->
          (Z.of_nat n <= MAX_HISTORY_TOKENS)%Z ->
          older = []).
Proof.
  intros Hbuild Hhistory.
  apply build_messages_for_model_ok in Hbuild
    as (history' & qa_context & recent_history & -> & Hhistory' & _ & Hrecent & ->).
  assert (history' = history) as -> by congruence.
  apply select_recent_spec in Hrecent as [_ Hrecent].
  pose proof (recent_within_prefix (reverse history) 0 MAX_HISTORY_TOKENS)
    as [rest Hrest].
  set (kept := reverse (recent_within (reverse history) 0 MAX_HISTORY_TOKENS)) in *.
  assert (Hsplit : history = reverse rest ++ kept).
  { unfold kept. rewrite <- reverse_app, <- Hrest. by rewrite reverse_involutive. }
  exists ([turn "system" SYSTEM_INSTRUCTION]
          ++ match qa_context with
             | [] => []
             | _ :: _ => [qa_context_message qa_context]
             end), (reverse rest), kept, recent_history.
  split; [reflexivity|]. split; [|split; [exact Hsplit|split; [exact Hrecent|split]]].
  - destruct qa_context as [|qa qa_context]; [by left|].
    right. eexists. split; [reflexivity|]. apply turn_role.
  - pose proof (Forall2_length _ _ _ Hrecent) as Hlen.
    pose proof (f_equal length Hsplit) as Hhist. rewrite length_app in Hhist.
    rewrite !length_app.
    destruct qa_context; simpl; lia.
  - intros n Hn Hfit. apply count_message_list_tokens_inv in Hn as [_ ->].
    assert (Hall : kept = history).
    { unfold kept. rewrite recent_within_all; [apply reverse_involutive|].
      rewrite messages_tokens_reverse. lia. }
    pose proof (f_equal length Hsplit) as Hhist. rewrite length_app in Hhist.
    rewrite Hall in Hhist. apply nil_length_inv. lia.
Qed.

(** ** Answering a question *)

Lemma update_memories_persists (conversation_id question answer : string)
    (w : World) (db1 db2 : DB) :
  database_add_message conversation_id "user" question (database w) = (db1, Ok tt) ->
  database_add_message conversation_id "assistant" answer db1 = (db2, Ok tt) ->
  database (fst (update_memories_after_response conversation_id question answer w))
  = db2.
Proof.
  intros Huser Hassistant. unfold update_memories_after_response. eff_run.
  rewrite Huser; cbn. rewrite Hassistant; cbn.
  destruct (should_store_in_vector_memory question answer); [|reflexivity].
  destruct (embed_text question) as [q_emb|e]; [|reflexivity].
  cbn. by destruct (store_add _ _ _ _) as [store' r].
Qed.

Lemma update_memories_returns (conversation_id question answer : string)
    (w w' : World) :
  update_memories_after_response conversation_id question answer w = (w', Ok tt) ->
  exists db1,
    database_add_message conversation_id "user" question (database w) = (db1, Ok tt)
    /\ database_add_message conversation_id "assistant" answer db1
       = (database w', Ok tt).
Proof.
  unfold update_memories_after_response. eff_run.
  destruct (database_add_message conversation_id "user" question (database w))
    as [db1 [[]|e]] eqn:Huser; cbn; [|discriminate].
  destruct (database_add_message conversation_id "assistant" answer db1)
    as [db2 [[]|e]] eqn:Hassistant; cbn; [|discriminate].
  intros Hrest. exists db1. split; [reflexivity|].
  assert (Hdb : database w' = db2); [|by rewrite Hdb].
  destruct (should_store_in_vector_memory question answer).
  - destruct (embed_text question) as [q_emb|e]; [|discriminate].
    cbn in Hrest.
    destruct (store_add _ _ _ _) as [store' [[]|e]]; [|discriminate].
    by injection Hrest as <-.
  - by injection Hrest as <-.
Qed.

(** X12. [ask_question] assembles the prompt, asks the model, then records
    the exchange. When the assembly or the model call raises, the exception is
    propagated and nothing was written: the question is not persisted and the
    store is unchanged. When [ask_question] returns an answer, the prompt that
    the model received ended with the question, the answer is the text of the
    model stripped of surrounding whitespace, and that same answer was
    persisted with role [assistant] right after the question with role
    [user]. *)
Theorem ask_question_outcomes (question conversation_id : string) (w : World) :
  let after := ask_question question conversation_id w in
  (forall e,
     snd (build_messages_for_model conversation_id question w) = Raise e ->
     after = (w, Raise e))
  /\ (forall messages e,
        snd (build_messages_for_model conversation_id question w) = Ok messages ->
        chat_completions_create messages = Raise e ->
        after = (w, Raise e))
  /\ (forall answer,
        snd after = Ok answer ->
        exists messages content db1,
          build_messages_for_model conversation_id question w = (w, Ok messages)
          /\ last messages = Some (turn "user" question)
          /\ chat_completions_create messages = Ok content
          /\ answer = py.strip content
          /\ database_add_message conversation_id "user" question (database w)
             = (db1, Ok tt)
          /\ database_add_message conversation_id "assistant" answer db1
             = (database (fst after), Ok tt)).
Proof.
  intros after. subst after. unfold ask_question, call_model, lift.
  unfold mbind, mret, Eff_bind, Eff_ret. cbn beta iota zeta.
  destruct (build_messages_for_model conversation_id question w)
    as [w1 [messages|e]] eqn:Hbuild; cbn [snd fst].
  - pose proof (build_messages_for_model_ok _ _ _ _ _ Hbuild)
      as (history & qa_context & recent_history & -> & _ & _ & _ & Hshape).
    split; [discriminate|]. split.
    + intros messages' e [= <-] Hraise. by rewrite Hraise.
    + intros answer.
      destruct (chat_completions_create messages) as [content|e] eqn:Hmodel;
        [|discriminate].
      destruct (update_memories_after_response conversation_id question
                  (py.strip content) w) as [w2 [[]|e]] eqn:Hupdate; [|discriminate].
      cbn [snd fst]. intros [= <-].
      destruct (update_memories_returns _ _ _ _ _ Hupdate) as (db1 & Huser & Hassistant).
      exists messages, content, db1.
      split; [reflexivity|]. split.
      { rewrite Hshape, app_assoc. apply last_snoc. }
      by repeat split.
  - assert (w1 = w) as ->.
    { pose proof (f_equal fst Hbuild) as Hfst. simpl in Hfst.
      revert Hfst. unfold build_messages_for_model. eff_run.
      destruct (database_get_messages conversation_id (database w)); [|by intros <-].
      pose proof (build_vector_memory_context_reads question w) as Hreads.
      destruct (build_vector_memory_context question w) as [w2 [qa|e2]];
        simpl in Hreads; subst w2; [|by intros <-].
      destruct (select_recent_messages_within_budget _ _); by intros <-. }
    split; [by intros e' [= <-]|]. split; [discriminate|discriminate].
Qed.

(** ** From one exchange to the next prompt *)

Lemma clean_copy_of_row (row : Message) (role content : string) :
  row !! "role" = Some role ->
  row !! "content" = Some content ->
  clean_copy row = Ok (turn role content).
Proof.
  intros Hrole Hcontent. unfold clean_copy, py.dict_getitem.
  rewrite Hrole; cbn. by rewrite Hcontent.
Qed.

(** X13. Suppose the database layer returns an added message after the
    messages the conversation had. Once [update_memories_after_response] has
    persisted an exchange whose two turns fit [MAX_HISTORY_TOKENS] together,
    the next prompt assembled for the same conversation ends with the
    question of that exchange (role [user]), its answer (role [assistant]) and
    the new question, in this order, whether or not the exchange was
    retained in the vector store. *)
Theorem next_prompt_ends_with_last_exchange
    (conversation_id question answer next_question : string)
    (w w1 w2 : World) (outcome : result unit) (db1 db2 : DB)
    (history messages : list Message) (n : nat) :
  database_appends ->
  database_get_messages conversation_id (database w) = Ok history ->
  database_add_message conversation_id "user" question (database w) = (db1, Ok tt) ->
  database_add_message conversation_id "assistant" answer db1 = (db2, Ok tt) ->
  update_memories_after_response conversation_id question answer w = (w1, outcome) ->
  build_messages_for_model conversation_id next_question w1 = (w2, Ok messages) ->
  count_message_list_tokens [turn "user" question; turn "assistant" answer] = Ok n ->
  (Z.of_nat n <= MAX_HISTORY_TOKENS)%Z ->
  exists front,
    messages
    = front ++ [turn "user" question; turn "assistant" answer;
                turn "user" next_question].
Proof.
  intros Happends Hhistory Huser Hassistant Hupdate Hbuild Hn Hfit.
  apply count_message_list_tokens_inv in Hn as [_ ->].
  pose proof (update_memories_persists _ _ _ _ _ _ Huser Hassistant) as Hdb.
  rewrite Hupdate in Hdb. simpl in Hdb.
  destruct (Happends _ _ _ _ _ _ Huser Hhistory) as (rq & Hget1 & Hrq_role & Hrq_content).
  destruct (Happends _ _ _ _ _ _ Hassistant Hget1)
    as (ra & Hget2 & Hra_role & Hra_content).
  apply build_messages_for_model_ok in Hbuild
    as (history' & qa_context & recent_history & -> & Hhistory' & _ & Hrecent & ->).
  rewrite Hdb, Hget2 in Hhistory'. injection Hhistory' as <-.
  apply select_recent_spec in Hrecent as [_ Hrecent].
  rewrite <- app_assoc in Hrecent. cbn [app] in Hrecent.
  rewrite reverse_app in Hrecent.
  change (reverse [rq; ra]) with [ra; rq] in Hrecent. cbn [app] in Hrecent.
  assert (Hcq : messages_tokens [rq] = messages_tokens [turn "user" question]).
  { symmetry. apply (messages_tokens_clean_copies [rq]). constructor; [|constructor].
    by apply clean_copy_of_row. }
  assert (Hca : messages_tokens [ra] = messages_tokens [turn "assistant" answer]).
  { symmetry. apply (messages_tokens_clean_copies [ra]). constructor; [|constructor].
    by apply clean_copy_of_row. }
  rewrite (messages_tokens_cons (turn "user" question)) in Hfit.
  cbn [recent_within] in Hrecent.
  destruct (_ <? _)%Z eqn:Hb1 in Hrecent; [apply Z.ltb_lt in Hb1; simpl in Hb1; lia|].
  destruct (_ <? _)%Z eqn:Hb2 in Hrecent; [apply Z.ltb_lt in Hb2; simpl in Hb2; lia|].
  rewrite !reverse_cons, <- app_assoc in Hrecent. cbn [app] in Hrecent.
  apply Forall2_app_inv_l in Hrecent as (c0 & c1 & _ & Hlast & ->).
  inversion Hlast as [|? cq ? c1' Hq Hrest]; subst.
  inversion Hrest as [|? ca ? c1'' Ha Hnil]; subst.
  inversion Hnil; subst.
  rewrite (clean_copy_of_row rq _ _ Hrq_role Hrq_content) in Hq. injection Hq as <-.
  rewrite (clean_copy_of_row ra _ _ Hra_role Hra_content) in Ha. injection Ha as <-.
  exists (([turn "system" SYSTEM_INSTRUCTION]
           ++ match qa_context with
              | [] => []
              | _ :: _ => [qa_context_message qa_context]
              end) ++ c0).
  rewrite <- !app_assoc. reflexivity.
Qed.

End Engine.

Arguments mkWorld {arith} {DB} database vector_store.
Arguments database {arith} {DB} w.
Arguments vector_store {arith} {DB} w.
Arguments build_messages_for_model {arith} count_tokens {DB} database_get_messages
  embed_text conversation_id question w.
Arguments update_memories_after_response {arith} {DB} database_add_message embed_text
  conversation_id question answer w.

(** * Properties of the database layer *)

Module DatabaseFacts.
Import Database.

Lemma is_conversation_true (cid : string) (c : conversation_row) :
  is_conversation cid c = true <-> conversation_id c = cid.
Proof. unfold is_conversation. apply String.eqb_eq. Qed.

Lemma of_conversation_true (cid : string) (m : message_row) :
  of_conversation cid m = true <-> message_conversation_id m = cid.
Proof. unfold of_conversation. apply String.eqb_eq. Qed.

Lemma conversation_exists_elem (cid : string) (t : Tables) :
  conversation_exists cid t = true <-> cid ∈ map conversation_id (conversations t).
Proof.
  unfold conversation_exists. rewrite existsb_exists. split.
  - intros (c & Hin & Hc). apply is_conversation_true in Hc as <-.
    apply list_elem_of_In, in_map, Hin.
  - intros Hin. apply list_elem_of_In, in_map_iff in Hin as (c & Hc & Hin).
    exists c. split; [exact Hin | by apply is_conversation_true].
Qed.

Lemma ids_update_conversation (cid : string)
    (f : conversation_row -> conversation_row) (l : list conversation_row) :
  (forall c, conversation_id (f c) = conversation_id c) ->
  map conversation_id (update_conversation cid f l) = map conversation_id l.
Proof.
  intros Hf. unfold update_conversation. rewrite map_map. apply map_ext.
  intros c. by destruct (is_conversation cid c).
Qed.

Lemma ids_after_ensure (conn : Connection) (cid title : string) (t : Tables) :
  NoDup (map conversation_id (conversations t)) ->
  NoDup (map conversation_id
           (conversations (ensure_conversation_exists conn cid title t))).
Proof.
  intros Hids. unfold ensure_conversation_exists.
  destruct conn as [now|]; [|exact Hids].
  destruct (conversation_exists cid t) eqn:Hexists; [exact Hids|].
  simpl. rewrite map_app; simpl. apply NoDup_app. split; [exact Hids|].
  split; [|apply NoDup_singleton].
  intros cid' Hin Hnew. apply list_elem_of_singleton in Hnew as ->.
  apply conversation_exists_elem in Hin. congruence.
Qed.

Lemma ids_after_delete (fk : ForeignKey) (conn : Connection) (cid : string)
    (t : Tables) :
  NoDup (map conversation_id (conversations t)) ->
  NoDup (map conversation_id
           (conversations (fst (delete_conversation fk conn cid t)))).
Proof.
  intros Hids.
  assert (Hkept : NoDup (map conversation_id
                           (filter (fun c => negb (is_conversation cid c))
                                   (conversations t)))).
  { revert Hids. generalize (conversations t). intros l.
    induction l as [|c l IH]; [done|]. simpl.
    rewrite filter_cons. intros Hnd. apply NoDup_cons in Hnd as [Hc Hl].
    destruct (decide _); [|by apply IH]. simpl. apply NoDup_cons. split; [|by apply IH].
    intros Hin. apply Hc.
    apply list_elem_of_fmap in Hin as (c' & Heq & Hin').
    apply list_elem_of_filter in Hin' as [_ Hin'].
    apply list_elem_of_fmap. by exists c'. }
  unfold delete_conversation. destruct conn as [now|]; [|exact Hids].
  destruct fk; simpl.
  - exact Hkept.
  - destruct (_ && _); [exact Hids | exact Hkept].
  - destruct (conversation_exists cid t); [exact Hkept | exact Hids].
Qed.

Lemma ids_after_add_message (fk : ForeignKey) (conn_ensure conn : Connection)
    (cid role content : string) (t : Tables) :
  NoDup (map conversation_id (conversations t)) ->
  NoDup (map conversation_id
           (conversations (fst (add_message fk conn_ensure conn cid role content t)))).
Proof.
  intros Hids.
  pose proof (ids_after_ensure conn_ensure cid DEFAULT_TITLE t Hids) as Hensure.
  unfold add_message.
  set (t1 := ensure_conversation_exists conn_ensure cid DEFAULT_TITLE t) in *.
  destruct conn as [now|]; [|exact Hensure].
  destruct (match fk with NoForeignKey => false | _ => _ end); [exact Hensure|].
  cbn [fst conversations].
  destruct (String.eqb role "user"); [destruct (_ =? 1)%nat|];
    rewrite ?ids_update_conversation by reflexivity; exact Hensure.
Qed.

(** X14. The database layer never gives two rows to one conversation
    identifier: whatever writing calls are made on empty tables, whatever
    connections fail, and whatever the schema says of the foreign key, the
    identifiers of the conversation rows stay pairwise distinct. In
    particular [ensure_conversation_exists] on an identifier that exists
    changes nothing: the row, its title included, is kept. *)
Theorem conversation_ids_stay_distinct (fk : ForeignKey) (calls : list call) :
  NoDup (map conversation_id (conversations (run fk calls)))
  /\ (forall conn cid title t,
        conversation_exists cid t = true ->
        ensure_conversation_exists conn cid title t = t).
Proof.
  split.
  - unfold run.
    assert (Hgen : forall t,
               NoDup (map conversation_id (conversations t)) ->
               NoDup (map conversation_id
                        (conversations (fold_left (step fk) calls t)))).
    { induction calls as [|c calls IH]; intros t Hids; simpl; [exact Hids|].
      apply IH. destruct c; simpl.
      - by apply ids_after_ensure.
      - by apply ids_after_ensure.
      - by apply ids_after_add_message.
      - by apply ids_after_delete. }
    apply Hgen. constructor.
  - intros conn cid title t Hexists. unfold ensure_conversation_exists.
    destruct conn; [|reflexivity]. by rewrite Hexists.
Qed.

Lemma insert_by_timestamp_perm (m : message_row) (l : list message_row) :
  insert_by_timestamp m l ≡ₚ m :: l.
Proof.
  induction l as [|m' l IH]; simpl; [done|].
  destruct (_ <=? _)%nat; [done|]. rewrite IH. apply Permutation_swap.
Qed.

Lemma order_by_timestamp_perm (l : list message_row) :
  order_by_timestamp_asc l ≡ₚ l.
Proof.
  induction l as [|m l IH]; simpl; [done|].
  by rewrite insert_by_timestamp_perm, IH.
Qed.

Lemma insert_by_timestamp_before_last (m new : message_row) (l : list message_row) :
  timestamp m <= timestamp new ->
  insert_by_timestamp m (l ++ [new]) = insert_by_timestamp m l ++ [new].
Proof.
  intros Hle. induction l as [|m' l IH]; simpl.
  - apply Nat.leb_le in Hle. by rewrite Hle.
  - destruct (_ <=? _)%nat; [reflexivity|]. by rewrite IH.
Qed.

Lemma order_by_timestamp_last (new : message_row) (l : list message_row) :
  Forall (fun m => timestamp m <= timestamp new) l ->
  order_by_timestamp_asc (l ++ [new]) = order_by_timestamp_asc l ++ [new].
Proof.
  induction 1 as [|m l Hm _ IH]; simpl; [reflexivity|].
  rewrite IH. by apply insert_by_timestamp_before_last.
Qed.

Lemma filter_new_message (cid role content : string) (now : nat) :
  filter (fun m => of_conversation cid m) [mkMessage cid role content now]
  = [mkMessage cid role content now].
Proof.
  rewrite filter_cons, filter_nil. apply decide_True.
  unfold of_conversation; simpl. by rewrite String.eqb_refl.
Qed.

Lemma filter_new_message_other (cid cid' role content : string) (now : nat) :
  cid' <> cid ->
  filter (fun m => of_conversation cid' m) [mkMessage cid role content now] = [].
Proof.
  intros Hother. rewrite filter_cons, filter_nil. apply decide_False.
  unfold of_conversation; simpl. intros Hsame.
  apply Is_true_true, String.eqb_eq in Hsame. congruence.
Qed.

Lemma messages_after_ensure (conn : Connection) (cid title : string) (t : Tables) :
  messages (ensure_conversation_exists conn cid title t) = messages t.
Proof.
  unfold ensure_conversation_exists. destruct conn; [|reflexivity].
  by destruct (conversation_exists cid t).
Qed.

Lemma exists_after_ensure (now : nat) (cid title : string) (t : Tables) :
  conversation_exists cid (ensure_conversation_exists (Some now) cid title t) = true.
Proof.
  unfold ensure_conversation_exists.
  destruct (conversation_exists cid t) eqn:Hexists; [exact Hexists|].
  unfold conversation_exists; simpl. rewrite existsb_app; simpl.
  unfold is_conversation at 2; simpl. rewrite String.eqb_refl.
  by rewrite orb_true_r.
Qed.

(** What [add_message] does when its two connections are up. *)
Lemma add_message_connected (fk : ForeignKey) (n1 now : nat)
    (cid role content : string) (t : Tables) :
  exists conversations',
    add_message fk (Some n1) (Some now) cid role content t
    = (mkTables conversations' (messages t ++ [mkMessage cid role content now]),
       Ok tt)
    /\ map conversation_id conversations'
       = map conversation_id
           (conversations (ensure_conversation_exists (Some n1) cid DEFAULT_TITLE t)).
Proof.
  unfold add_message.
  pose proof (exists_after_ensure n1 cid DEFAULT_TITLE t) as Hexists.
  pose proof (messages_after_ensure (Some n1) cid DEFAULT_TITLE t) as Hmessages.
  set (t1 := ensure_conversation_exists (Some n1) cid DEFAULT_TITLE t) in *.
  rewrite Hexists, Hmessages.
  assert (Hrefused : match fk with
                     | NoForeignKey => false
                     | _ => negb true
                     end = false) by (by destruct fk).
  rewrite Hrefused. eexists. split; [reflexivity|].
  destruct (String.eqb role "user"); [destruct (_ =? 1)%nat|];
    by rewrite ?ids_update_conversation by reflexivity.
Qed.

(** X15. When the two connections of [add_message] are up, the call raises
    nothing, whatever the foreign key: the conversation exists afterwards (it
    is created if absent), the messages of the conversation are the ones it
    had and the new one, and the messages of every other conversation are
    what they were. When the server time of the call is later than the time
    of every stored message, [get_messages] returns the new message last,
    after the earlier ones in their earlier order. *)
Theorem add_message_then_get_messages (fk : ForeignKey) (n1 now reader : nat)
    (cid role content : string) (t : Tables) :
  let after := add_message fk (Some n1) (Some now) cid role content t in
  let new := message_dict (mkMessage cid role content now) in
  snd after = Ok tt
  /\ conversation_exists cid (fst after) = true
  /\ get_messages (Some reader) cid (fst after)
     ≡ₚ get_messages (Some reader) cid t ++ [new]
  /\ (Forall (fun m => timestamp m < now) (messages t) ->
      get_messages (Some reader) cid (fst after)
      = get_messages (Some reader) cid t ++ [new])
  /\ (forall cid',
        cid' <> cid ->
        get_messages (Some reader) cid' (fst after)
        = get_messages (Some reader) cid' t).
Proof.
  intros after new. subst after new.
  destruct (add_message_connected fk n1 now cid role content t)
    as (conversations' & -> & Hids).
  cbn [fst snd]. split; [reflexivity|]. split; [|split; [|split]].
  - apply conversation_exists_elem. cbn [conversations]. rewrite Hids.
    apply conversation_exists_elem, exists_after_ensure.
  - unfold get_messages; cbn [messages].
    rewrite filter_app, filter_new_message.
    rewrite !order_by_timestamp_perm, map_app. reflexivity.
  - intros Hlater. unfold get_messages; cbn [messages].
    rewrite filter_app, filter_new_message.
    rewrite order_by_timestamp_last, map_app; [reflexivity|].
    apply Forall_forall. intros m Hm. apply list_elem_of_filter in Hm as [_ Hm].
    rewrite Forall_forall in Hlater. specialize (Hlater m Hm). simpl. lia.
  - intros cid' Hother. unfold get_messages; cbn [messages].
    by rewrite filter_app, filter_new_message_other, app_nil_r.
Qed.

Lemma find_update_conversation (cid cid' : string)
    (f : conversation_row -> conversation_row) (l : list conversation_row) :
  (forall c, conversation_id (f c) = conversation_id c) ->
  List.find (is_conversation cid') (update_conversation cid f l)
  = (fun c => if is_conversation cid c then f c else c)
      <$> List.find (is_conversation cid') l.
Proof.
  intros Hf. induction l as [|c l IH]; simpl; [reflexivity|].
  assert (Hsame : is_conversation cid' (if is_conversation cid c then f c else c)
                  = is_conversation cid' c).
  { destruct (is_conversation cid c); [|reflexivity].
    unfold is_conversation. by rewrite Hf. }
  rewrite Hsame. destruct (is_conversation cid' c); [reflexivity | exact IH].
Qed.

Lemma find_is_conversation (cid : string) (l : list conversation_row)
    (c : conversation_row) :
  List.find (is_conversation cid) l = Some c -> is_conversation cid c = true.
Proof. intros Hfind. by apply find_some in Hfind as [_ Hc]. Qed.

Lemma title_after_update_time (cid cid' : string) (now : nat)
    (l : list conversation_row) :
  title <$> List.find (is_conversation cid')
              (update_conversation cid
                 (fun c => mkConversation (conversation_id c) (title c) now) l)
  = title <$> List.find (is_conversation cid') l.
Proof.
  rewrite find_update_conversation by reflexivity.
  destruct (List.find (is_conversation cid') l) as [c|]; [|reflexivity].
  simpl. by destruct (is_conversation cid c).
Qed.

Lemma title_after_update_title (cid cid' new_title : string)
    (l : list conversation_row) :
  title <$> List.find (is_conversation cid')
              (update_conversation cid
                 (fun c => mkConversation (conversation_id c) new_title (updated_at c)) l)
  = (fun c => if is_conversation cid c then new_title else title c)
      <$> List.find (is_conversation cid') l.
Proof.
  rewrite find_update_conversation by reflexivity.
  destruct (List.find (is_conversation cid') l) as [c|]; [|reflexivity].
  simpl. by destruct (is_conversation cid c).
Qed.

Lemma find_app_first {A : Type} (f : A -> bool) (l1 l2 : list A) :
  List.find f (l1 ++ l2)
  = match List.find f l1 with Some x => Some x | None => List.find f l2 end.
Proof.
  induction l1 as [|x l1 IH]; simpl; [reflexivity|].
  by destruct (f x).
Qed.

Lemma title_after_ensure (now : nat) (cid cid' new_title : string) (t : Tables) :
  title_of cid' (ensure_conversation_exists (Some now) cid new_title t)
  = match title_of cid' t with
    | Some old => Some old
    | None => if String.eqb cid cid' then Some new_title else None
    end.
Proof.
  unfold title_of, ensure_conversation_exists.
  destruct (conversation_exists cid t) eqn:Hexists.
  - destruct (List.find (is_conversation cid') (conversations t)) as [c|] eqn:Hfind;
      [reflexivity|]. simpl.
    destruct (String.eqb_spec cid cid') as [<-|Hne]; [|reflexivity].
    exfalso. apply existsb_exists in Hexists as (c & Hin & Hc).
    pose proof (find_none _ _ Hfind c Hin). congruence.
  - cbn [conversations]. rewrite find_app_first.
    destruct (List.find (is_conversation cid') (conversations t)) as [c|];
      [reflexivity|].
    simpl. unfold is_conversation; simpl.
    by destruct (String.eqb cid cid').
Qed.

Lemma string_length_append (s1 s2 : string) :
  String.length (s1 +:+ s2) = String.length s1 + String.length s2.
Proof. induction s1 as [|a s1 IH]; simpl; [reflexivity | by rewrite IH]. Qed.

Lemma string_length_substring (n : nat) (s : string) :
  String.length (String.substring 0 n s) = Nat.min n (String.length s).
Proof.
  revert s. induction n as [|n IH]; intros [|a s]; simpl; try reflexivity.
  by rewrite IH.
Qed.

Lemma first_message_count (cid role content : string) (now : nat)
    (l : list message_row) :
  (length (filter (fun m => of_conversation cid m)
                  (l ++ [mkMessage cid role content now])) =? 1)%nat
  = negb (existsb (of_conversation cid) l).
Proof.
  rewrite filter_app, filter_new_message, length_app. simpl.
  induction l as [|m l IH]; simpl; [reflexivity|].
  rewrite filter_cons.
  destruct (of_conversation cid m) eqn:Hm.
  - rewrite decide_True by exact I. simpl.
    apply Nat.eqb_neq. lia.
  - rewrite decide_False by (intros []). exact IH.
Qed.

(** X16. The title rule of [add_message], with the two connections up. The
    title of the conversation becomes the title made from the content exactly
    when the role is [user] and the conversation had no message at all before
    the call; otherwise the conversation keeps the title it had, or has the
    default title if the call created it. The titles of the other
    conversations are not touched. The title made from a content is the
    content itself when it has at most 50 characters, and otherwise its first
    50 characters followed by three dots: never more than 53 characters. *)
Theorem add_message_title_rule (fk : ForeignKey) (n1 now : nat)
    (cid role content : string) (t : Tables) :
  let after := fst (add_message fk (Some n1) (Some now) cid role content t) in
  title_of cid after
  = Some (if String.eqb role "user" && negb (existsb (of_conversation cid) (messages t))
          then first_message_title content
          else default DEFAULT_TITLE (title_of cid t))
  /\ (forall cid', cid' <> cid -> title_of cid' after = title_of cid' t)
  /\ String.length (first_message_title content) <= 53
  /\ (String.length content <= 50 -> first_message_title content = content)
  /\ (50 < String.length content ->
      first_message_title content = String.substring 0 50 content +:+ "..."
      /\ String.length (first_message_title content) = 53).
Proof.
  intros after. subst after. unfold add_message.
  pose proof (exists_after_ensure n1 cid DEFAULT_TITLE t) as Hexists.
  pose proof (messages_after_ensure (Some n1) cid DEFAULT_TITLE t) as Hmessages.
  assert (Htitles := fun cid' => title_after_ensure n1 cid cid' DEFAULT_TITLE t).
  set (t1 := ensure_conversation_exists (Some n1) cid DEFAULT_TITLE t) in *.
  rewrite Hexists, Hmessages.
  assert (Hrefused : match fk with
                     | NoForeignKey => false
                     | _ => negb true
                     end = false) by (by destruct fk).
  rewrite Hrefused. cbn [fst]. rewrite first_message_count.
  assert (Hlen : 50 < String.length content ->
            String.length (String.substring 0 50 content +:+ "...") = 53).
  { intros Hlong. rewrite string_length_append, string_length_substring.
    change (String.length "...") with 3. lia. }
  split; [|split; [|split; [|split]]].
  - unfold title_of in *. cbn [conversations].
    specialize (Htitles cid). rewrite String.eqb_refl in Htitles.
    destruct (String.eqb role "user"); cbn [andb];
      [destruct (negb (existsb (of_conversation cid) (messages t)))|].
    + rewrite title_after_update_title, find_update_conversation by reflexivity.
      destruct (List.find (is_conversation cid) (conversations t1)) as [c|] eqn:Hfind.
      * pose proof (find_is_conversation _ _ _ Hfind) as Hc.
        simpl. rewrite Hc. unfold is_conversation in *. simpl. by rewrite Hc.
      * simpl in Htitles. by destruct (title <$> List.find _ (conversations t)).
    + rewrite title_after_update_time, Htitles.
      by destruct (title <$> List.find _ (conversations t)).
    + rewrite title_after_update_time, Htitles.
      by destruct (title <$> List.find _ (conversations t)).
  - intros cid' Hother. unfold title_of in *. cbn [conversations].
    specialize (Htitles cid').
    assert (Hne : String.eqb cid cid' = false) by (apply String.eqb_neq; congruence).
    rewrite Hne in Htitles.
    assert (Hkeep : title <$> List.find (is_conversation cid') (conversations t1)
                    = title <$> List.find (is_conversation cid') (conversations t)).
    { rewrite Htitles. by destruct (title <$> List.find _ (conversations t)). }
    destruct (String.eqb role "user"); cbn [andb];
      [destruct (negb (existsb (of_conversation cid) (messages t)))|];
      rewrite ?title_after_update_title, ?title_after_update_time, <- ?Hkeep;
      try reflexivity.
    rewrite find_update_conversation by reflexivity.
    destruct (List.find (is_conversation cid') (conversations t1)) as [c|] eqn:Hfind;
      [|reflexivity].
    simpl. apply find_is_conversation in Hfind.
    apply is_conversation_true in Hfind.
    assert (Hnot : is_conversation cid c = false).
    { unfold is_conversation. apply String.eqb_neq. congruence. }
    by rewrite !Hnot.
  - unfold first_message_title.
    destruct (50 <? String.length content)%nat eqn:Hlong.
    + apply Nat.ltb_lt in Hlong. rewrite (Hlen Hlong). lia.
    + apply Nat.ltb_ge in Hlong. lia.
  - intros Hshort. unfold first_message_title.
    destruct (50 <? String.length content)%nat eqn:Hlong; [|reflexivity].
    apply Nat.ltb_lt in Hlong. lia.
  - intros Hlong. unfold first_message_title.
    pose proof Hlong as Hlong'. apply Nat.ltb_lt in Hlong'. rewrite Hlong'.
    split; [reflexivity | by apply Hlen].
Qed.

Lemma insert_by_updated_at_perm (c : conversation_row) (l : list conversation_row) :
  insert_by_updated_at c l ≡ₚ c :: l.
Proof.
  induction l as [|c' l IH]; simpl; [done|].
  destruct (_ <=? _)%nat; [done|]. rewrite IH. apply Permutation_swap.
Qed.

Lemma order_by_updated_at_perm (l : list conversation_row) :
  order_by_updated_at_desc l ≡ₚ l.
Proof.
  induction l as [|c l IH]; simpl; [done|].
  by rewrite insert_by_updated_at_perm, IH.
Qed.

Lemma has_message_elem (cid : string) (l : list message_row) :
  existsb (of_conversation cid) l = true
  <-> exists m, m ∈ l /\ message_conversation_id m = cid.
Proof.
  rewrite existsb_exists. split.
  - intros (m & Hin & Hm). exists m.
    split; [by apply list_elem_of_In | by apply of_conversation_true].
  - intros (m & Hin & Hm). exists m.
    split; [by apply list_elem_of_In | by apply of_conversation_true].
Qed.

Lemma list_conversations_elem (reader : nat) (t : Tables) (c : conversation_row) :
  c ∈ list_conversations (Some reader) t
  <-> c ∈ conversations t
      /\ existsb (of_conversation (conversation_id c)) (messages t) = true.
Proof.
  unfold list_conversations.
  rewrite order_by_updated_at_perm, elem_of_remove_dups, list_elem_of_In, in_flat_map.
  split.
  - intros (c' & Hin & Hjoin). apply in_map_iff in Hjoin as (m & -> & Hm).
    split; [by apply list_elem_of_In|].
    apply list_elem_of_In, list_elem_of_filter in Hm as [Hof Hm].
    apply has_message_elem. exists m. split; [exact Hm|].
    by apply of_conversation_true, Is_true_true.
  - intros [Hin Hhas]. exists c. split; [by apply list_elem_of_In|].
    apply has_message_elem in Hhas as (m & Hm & Hcid).
    apply in_map_iff. exists m. split; [reflexivity|].
    apply list_elem_of_In, list_elem_of_filter. split; [|exact Hm].
    by apply Is_true_true, of_conversation_true.
Qed.

(** X17. With its connection up, [list_conversations] lists exactly the
    conversation rows that have at least one message, each of them once: a
    conversation without message is not listed, so a conversation that
    [create_conversation] has just created on a new identifier is hidden until
    a message is added to it, and is listed once [add_message] has run. *)
Theorem list_conversations_hides_empty (reader : nat) (t : Tables) :
  (forall c,
     c ∈ list_conversations (Some reader) t
     <-> c ∈ conversations t
         /\ exists m, m ∈ messages t
                      /\ message_conversation_id m = conversation_id c)
  /\ NoDup (list_conversations (Some reader) t)
  /\ (forall uuid4 now new_title,
        ~ (exists m, m ∈ messages t /\ message_conversation_id m = uuid4) ->
        let created := create_conversation uuid4 (Some now) new_title t in
        snd created = uuid4
        /\ conversation_exists uuid4 (fst created) = true
        /\ (forall c, c ∈ list_conversations (Some reader) (fst created) ->
                      conversation_id c <> uuid4)
        /\ (forall fk n1 n2 role content,
              exists c,
                c ∈ list_conversations (Some reader)
                      (fst (add_message fk (Some n1) (Some n2) uuid4 role content
                              (fst created)))
                /\ conversation_id c = uuid4)).
Proof.
  split; [|split].
  - intros c. rewrite list_conversations_elem, has_message_elem. reflexivity.
  - unfold list_conversations. rewrite order_by_updated_at_perm.
    apply NoDup_remove_dups.
  - intros uuid4 now new_title Hnone created. subst created.
    unfold create_conversation. cbn [fst snd].
    split; [reflexivity|]. split; [apply exists_after_ensure|]. split.
    + intros c Hc Hid. apply list_conversations_elem in Hc as [_ Hhas].
      rewrite messages_after_ensure in Hhas.
      apply has_message_elem in Hhas. rewrite Hid in Hhas. contradiction.
    + intros fk n1 n2 role content.
      set (t1 := ensure_conversation_exists (Some now) uuid4 new_title t).
      destruct (add_message_connected fk n1 n2 uuid4 role content t1)
        as (conversations' & Hadd & Hids).
      rewrite Hadd. cbn [fst].
      assert (Hin : uuid4 ∈ map conversation_id conversations').
      { rewrite Hids. apply conversation_exists_elem, exists_after_ensure. }
      apply list_elem_of_fmap in Hin as (c & Hid & Hc).
      exists c. split; [|by rewrite Hid].
      apply list_conversations_elem. split; [exact Hc|].
      cbn [messages]. rewrite existsb_app. simpl.
      unfold of_conversation at 2; simpl. rewrite <- Hid, String.eqb_refl.
      by rewrite orb_true_r.
Qed.

Lemma filter_other_conversation (cid cid' : string) (l : list message_row) :
  cid' <> cid ->
  filter (fun m => of_conversation cid' m)
         (filter (fun m => negb (of_conversation cid m)) l)
  = filter (fun m => of_conversation cid' m) l.
Proof.
  intros Hother. induction l as [|m l IH]; [reflexivity|].
  rewrite !filter_cons.
  destruct (of_conversation cid m) eqn:Hm.
  - rewrite (decide_False (P := Is_true (negb true))) by (intros []).
    apply of_conversation_true in Hm.
    rewrite decide_False; [exact IH|].
    intros Hsame. apply Is_true_true, of_conversation_true in Hsame. congruence.
  - rewrite (decide_True (P := Is_true (negb false))) by exact I.
    rewrite filter_cons.
    destruct (decide _); [by rewrite IH | exact IH].
Qed.

(** X18. [delete_conversation] with its connection up. When it returns, no
    conversation row has the identifier any more and the conversation is not
    listed; the rows and the messages of the other conversations are what
    they were. It raises only under a restricting foreign key, when the
    conversation exists and has messages, and then the tables are unchanged.
    Under a cascading foreign key the messages of a deleted conversation are
    gone with it. *)
Theorem delete_conversation_effect (fk : ForeignKey) (now reader : nat)
    (cid : string) (t : Tables) :
  let after := delete_conversation fk (Some now) cid t in
  (snd after = Ok tt ->
   conversation_exists cid (fst after) = false
   /\ (forall c, c ∈ list_conversations (Some reader) (fst after) ->
                 conversation_id c <> cid)
   /\ (forall c, conversation_id c <> cid ->
                 c ∈ conversations (fst after) <-> c ∈ conversations t)
   /\ (forall cid', cid' <> cid ->
                    get_messages (Some reader) cid' (fst after)
                    = get_messages (Some reader) cid' t))
  /\ (forall e,
        snd after = Raise e ->
        fk = Restrict
        /\ conversation_exists cid t = true
        /\ existsb (of_conversation cid) (messages t) = true
        /\ fst after = t)
  /\ (fk = Cascade ->
      conversation_exists cid t = true ->
      snd after = Ok tt /\ get_messages (Some reader) cid (fst after) = []).
Proof.
  intros after. subst after.
  assert (Hgone : forall l,
             existsb (is_conversation cid)
               (filter (fun c => negb (is_conversation cid c)) l) = false).
  { intros l. apply not_true_is_false. intros Hex.
    apply existsb_exists in Hex as (c & Hin & Hc).
    apply list_elem_of_In, list_elem_of_filter in Hin as [Hnot _].
    rewrite Hc in Hnot. exact Hnot. }
  assert (Hkept : forall c,
             conversation_id c <> cid ->
             c ∈ filter (fun c => negb (is_conversation cid c)) (conversations t)
             <-> c ∈ conversations t).
  { intros c Hother. rewrite list_elem_of_filter.
    assert (Hnot : is_conversation cid c = false).
    { unfold is_conversation. by apply String.eqb_neq. }
    rewrite Hnot. simpl. tauto. }
  assert (Hlisted : forall t',
             conversation_exists cid t' = false ->
             forall c, c ∈ list_conversations (Some reader) t' ->
                       conversation_id c <> cid).
  { intros t' Hnone c Hc Hid. apply list_conversations_elem in Hc as [Hin _].
    assert (Hex : conversation_exists cid t' = true); [|congruence].
    apply conversation_exists_elem, list_elem_of_fmap. by exists c. }
  unfold delete_conversation. split; [|split].
  - destruct fk.
    + cbn [fst snd]. intros _.
      assert (Hnone : conversation_exists cid
                        (mkTables (filter (fun c => negb (is_conversation cid c))
                                          (conversations t)) (messages t)) = false)
        by apply Hgone.
      split; [exact Hnone|]. split; [by apply Hlisted|]. split; [exact Hkept | done].
    + destruct (conversation_exists cid t && existsb (of_conversation cid) (messages t));
        cbn [fst snd]; [discriminate|]. intros _.
      assert (Hnone : conversation_exists cid
                        (mkTables (filter (fun c => negb (is_conversation cid c))
                                          (conversations t)) (messages t)) = false)
        by apply Hgone.
      split; [exact Hnone|]. split; [by apply Hlisted|]. split; [exact Hkept | done].
    + destruct (conversation_exists cid t) eqn:Hexists; cbn [fst snd]; intros _.
      * assert (Hnone : conversation_exists cid
                          (mkTables (filter (fun c => negb (is_conversation cid c))
                                            (conversations t))
                             (filter (fun m => negb (of_conversation cid m))
                                     (messages t))) = false)
          by apply Hgone.
        split; [exact Hnone|]. split; [by apply Hlisted|]. split; [exact Hkept|].
        intros cid' Hother. unfold get_messages; cbn [messages].
        by rewrite filter_other_conversation.
      * split; [exact Hexists|]. split; [by apply Hlisted|]. split; done.
  - intros e. destruct fk; cbn [fst snd]; try discriminate.
    + destruct (conversation_exists cid t) eqn:Hexists;
        destruct (existsb (of_conversation cid) (messages t)) eqn:Hhas;
        cbn [andb fst snd]; try discriminate.
      by intros _.
    + destruct (conversation_exists cid t); discriminate.
  - intros -> Hexists. rewrite Hexists. cbn [fst snd]. split; [reflexivity|].
    unfold get_messages; cbn [messages].
    assert (Hnil : filter (fun m => of_conversation cid m)
                     (filter (fun m => negb (of_conversation cid m)) (messages t))
                   = []); [|by rewrite Hnil].
    generalize (messages t). intros l. induction l as [|m l IH]; [reflexivity|].
    rewrite filter_cons. destruct (of_conversation cid m) eqn:Hm.
    + by rewrite (decide_False (P := Is_true (negb true))) by (intros []).
    + rewrite (decide_True (P := Is_true (negb false))) by exact I.
      rewrite filter_cons, decide_False; [exact IH|].
      rewrite Hm. intros [].
Qed.

End DatabaseFacts.

(** * The properties on concrete runs *)

(** ** The store *)

Lemma twin_entries_search :
  store_search (store_run (map add_entry twin_entries)) [3%float; 4%float] 2
  = Ok [ ("What is FAISS used for?", "It is a vector index.");
         ("What is FAISS used for?", "It searches embeddings by similarity.") ].
Proof. vm_compute. reflexivity. Qed.



(** C5 on a run with a search in the middle and a rejected insertion at the
    end. *)
Lemma store_index_matches_entries_on_run :
  let self :=
    store_run [ CallAdd "What is Python?" "A programming language."
                  [3%float; 4%float];
                CallSearch [3%float; 4%float] 5;
                CallAdd "What is Java?" "Another programming language." [1%float] ] in
  store_ntotal self = length (_questions self)
  /\ length (_questions self) = length (_answers self).
Proof.
  intros self.
  pose proof (store_index_matches_entries
                [ CallAdd "What is Python?" "A programming language."
                    [3%float; 4%float];
                  CallSearch [3%float; 4%float] 5;
                  CallAdd "What is Java?" "Another programming language."
                    [1%float] ])
    as (Hn & Hqa & _).
  split; [exact Hn | exact Hqa].
Defined.

(** C6 on the store of the twin entries, asked for two neighbours. *)
Lemma store_search_at_most_top_k_on_twins :
  (Z.of_nat (length [ ("What is FAISS used for?", "It is a vector index.");
                      ("What is FAISS used for?", "It searches embeddings by similarity.") ])
   <= Z.min 2 (Z.of_nat (length (_questions (store_run (map add_entry twin_entries))))))%Z.
Proof.
  apply (proj1 (store_search_at_most_top_k
                  (map add_entry twin_entries) [3%float; 4%float] 2)).
  - lia.
  - exact twin_entries_search.
Defined.

(** C7 on a store of dimension two that is handed a vector of length one. *)
Lemma store_add_wrong_dimension_on_plane :
  let self :=
    store_run [ CallAdd "What is Python?" "A programming language."
                  [3%float; 4%float] ] in
  _dim self = Some 2
  /\ store_add self "What is Java?" "Another programming language." [1%float]
     = (self, Raise AssertionError).
Proof.
  apply (store_add_wrong_dimension
           "What is Python?" "A programming language." [3%float; 4%float] []
           "What is Java?" "Another programming language." [1%float]).
  simpl. lia.
Defined.

(** ** The retention heuristic *)

(** C4 on a question that opens with thanks. *)
Lemma should_store_policy_on_thanks :
  should_store_in_vector_memory
    "  Thanks, and how do I reset my password on the site?"
    "Open the account page and choose the reset link there."
  = false.
Proof.
  apply (proj1 should_store_policy). exists "thanks". split.
  - simpl. tauto.
  - vm_compute. reflexivity.
Defined.

(** C10 on a question about the heyday of steam, which starts with [hey]. *)
Lemma small_talk_test_on_heyday :
  should_store_in_vector_memory
    "Heyday of the steam engine was in which century?"
    "The steam engine had its heyday in the nineteenth century."
  = false.
Proof.
  apply (proj1 (proj2 small_talk_test_is_a_character_prefix)) with (p := "hey").
  - simpl. tauto.
  - vm_compute. reflexivity.
Defined.

(** ** The selectors, with one token per character *)

(** C2, as first stated, fails: the budget of the engine covers the whole of
    [stamped_history], yet the selector does not return [stamped_history], nor
    a suffix of it; it returns the turn without its timestamp. *)
Lemma stamped_history_not_returned :
  count_message_list_tokens InMemory.count_tokens stamped_history = Ok 12
  /\ (12 <= MAX_HISTORY_TOKENS)%Z
  /\ select_recent_messages_within_budget InMemory.count_tokens stamped_history
       MAX_HISTORY_TOKENS
     = Ok [turn "user" "hello"]
  /\ [turn "user" "hello"] <> stamped_history
  /\ ~ ([turn "user" "hello"] `suffix_of` stamped_history).
Proof.
  assert (Hdiffer : turn "user" "hello" !! "timestamp"
                    <> ({[ "role" := "user"; "content" := "hello";
                           "timestamp" := "2024-05-01 10:00:00" ]} : Message)
                       !! "timestamp")
    by (vm_compute; discriminate).
  split; [vm_compute; reflexivity|].
  split; [vm_compute; discriminate|]. split; [vm_compute; reflexivity|]. split.
  - intros Heq. apply Hdiffer.
    exact (f_equal (fun l : list Message =>
                      match l with
                      | msg :: _ => msg !! "timestamp"
                      | [] => None
                      end) Heq).
  - intros [older Holder]. apply Hdiffer.
    apply (f_equal (fun l : list Message =>
                      match last l with
                      | Some msg => msg !! "timestamp"
                      | None => None
                      end)) in Holder.
    rewrite last_snoc in Holder. symmetry. exact Holder.
Qed.

(** C2 (as amended) on a history whose last turn alone costs more than the
    budget. *)
Lemma select_recent_drops_large_turn :
  select_recent_messages_within_budget InMemory.count_tokens
    [ turn "user" "What is FAISS used for?";
      turn "assistant" "It searches embeddings by similarity." ] 20
  = Ok [].
Proof.
  apply (proj1 (proj2 (proj2 (proj2
           (select_recent_clean_suffix InMemory.count_tokens
              [ turn "user" "What is FAISS used for?";
                turn "assistant" "It searches embeddings by similarity." ] 20)))))
    with (older := [turn "user" "What is FAISS used for?"])
         (msg := turn "assistant" "It searches embeddings by similarity.")
         (m := 49).
  - reflexivity.
  - vm_compute. reflexivity.
  - vm_compute. reflexivity.
Defined.

(** C8 on three ranked pairs of which the third overflows the budget: the
    first two are selected, and the tokenizer has counted the third, which
    does not fit after them. *)
Lemma select_vector_qa_stops_at_third :
  InMemory.count_tokens (pair_text ("eeeeeeeee", "f"))
  = Ok (pair_tokens InMemory.count_tokens ("eeeeeeeee", "f"))
  /\ (25 < Z.of_nat (pairs_tokens InMemory.count_tokens [("a", "b"); ("cc", "dd")]
                     + pair_tokens InMemory.count_tokens ("eeeeeeeee", "f")))%Z.
Proof.
  apply (proj1 (proj2 (proj2 (proj2
           (proj1 (select_vector_qa_prefix_idempotent InMemory.count_tokens
                     [("a", "b"); ("cc", "dd"); ("eeeeeeeee", "f")] 25)
              [("a", "b"); ("cc", "dd")] ltac:(vm_compute; reflexivity))))))
    with (rest := []).
  reflexivity.
Defined.

(** ** The assembler and the update, on the table kept in memory *)

(** C1 on the scenario of the specification: empty store, empty history. *)
Lemma build_messages_for_first_question :
  build_messages_for_model InMemory.count_tokens InMemory.get_messages
    InMemory.embed_text "conversation-1" "What is 2+2?" (mkWorld [] store_init)
  = (mkWorld [] store_init,
     Ok [turn "system" SYSTEM_INSTRUCTION; turn "user" "What is 2+2?"]).
Proof.
  apply (proj2 (proj2 (build_messages_for_model_shape InMemory.count_tokens
                         InMemory.DB InMemory.get_messages InMemory.embed_text
                         "conversation-1" "What is 2+2?" (mkWorld [] store_init)))).
  - reflexivity.
  - reflexivity.
Defined.

(** C9 on an exchange that the heuristic rejects: the two turns are
    persisted, question first, and the store stays empty. *)
Lemma update_memories_after_greeting :
  update_memories_after_response InMemory.add_message InMemory.embed_text
    "conversation-1" "Hi" "Hello!" (mkWorld [] store_init)
  = (mkWorld
       [ ("conversation-1",
          {[ "role" := "user"; "content" := "Hi"; "timestamp" := "" ]});
         ("conversation-1",
          {[ "role" := "assistant"; "content" := "Hello!"; "timestamp" := "" ]}) ]
       store_init,
     Ok tt).
Proof.
  refine (proj1 (proj2 (proj1 (update_memories_after_response_steps
                    InMemory.DB InMemory.add_message InMemory.embed_text
                    "conversation-1" "Hi" "Hello!" (mkWorld [] store_init))
                  _ _ eq_refl eq_refl)) _).
  vm_compute. reflexivity.
Defined.

(** ** The further properties of the engine *)

(** X2 on two turns of which only the last one fits a budget of 50. *)
Lemma select_recent_fits_budget_on_two_turns :
  (exists n,
     count_message_list_tokens InMemory.count_tokens
       [turn "assistant" "It searches embeddings by similarity."] = Ok n
     /\ ([turn "assistant" "It searches embeddings by similarity."] = []
         \/ (Z.of_nat n <= 50)%Z))
  /\ ((50 < 0)%Z -> [turn "assistant" "It searches embeddings by similarity."] = []).
Proof.
  apply (select_recent_fits_budget InMemory.count_tokens
           [ turn "user" "What is FAISS used for?";
             turn "assistant" "It searches embeddings by similarity." ]).
  vm_compute. reflexivity.
Defined.

(** X3 on [stamped_history]: what the selector returns for it is a list of
    bare turns, which the selector returns unchanged. *)
Lemma select_recent_output_is_clean_on_stamped_history :
  Forall (fun msg : Message =>
            exists role content,
              msg = turn role content
              /\ dom msg = ({[ "role"; "content" ]} : gset string))
         [turn "user" "hello"]
  /\ select_recent_messages_within_budget InMemory.count_tokens
       [turn "user" "hello"] MAX_HISTORY_TOKENS
     = Ok [turn "user" "hello"].
Proof.
  apply (select_recent_output_is_clean InMemory.count_tokens stamped_history).
  vm_compute. reflexivity.
Defined.

(** X5 on two turns, with the budgets 50 and 100: the last turn alone, then
    both. *)
Lemma select_recent_monotone_on_two_turns :
  [turn "assistant" "It searches embeddings by similarity."]
  `suffix_of` [ turn "user" "What is FAISS used for?";
                turn "assistant" "It searches embeddings by similarity." ].
Proof.
  apply (select_recent_monotone InMemory.count_tokens
           [ turn "user" "What is FAISS used for?";
             turn "assistant" "It searches embeddings by similarity." ]
           _ _ 50 100).
  - lia.
  - vm_compute. reflexivity.
  - vm_compute. reflexivity.
Defined.

(** X8 on a run that stores two entries, asked for five neighbours. *)
Lemma store_search_returns_every_entry_on_run :
  exists results,
    store_search
      (store_run [ CallAdd "What is Python?" "A programming language."
                     [3%float; 4%float];
                   CallSearch [3%float; 4%float] 5;
                   CallAdd "What is Java?" "Another programming language."
                     [4%float; 3%float] ])
      [1%float; 0%float] 5
    = Ok results
    /\ results ≡ₚ [ ("What is Python?", "A programming language.");
                    ("What is Java?", "Another programming language.") ].
Proof.
  eapply (store_search_returns_every_entry
            [ CallAdd "What is Python?" "A programming language."
                [3%float; 4%float];
              CallSearch [3%float; 4%float] 5;
              CallAdd "What is Java?" "Another programming language."
                [4%float; 3%float] ]
            [1%float; 0%float] 5).
  - vm_compute. reflexivity.
  - reflexivity.
  - lia.
  - simpl. lia.
Defined.

Lemma twin_entries_context (db : InMemory.DB) :
  build_vector_memory_context InMemory.count_tokens InMemory.DB
    InMemory.embed_text "What is FAISS?"
    (mkWorld db (store_run (map add_entry twin_entries)))
  = (mkWorld db (store_run (map add_entry twin_entries)),
     Ok [ ("What is FAISS used for?", "It is a vector index.");
          ("What is FAISS used for?", "It searches embeddings by similarity.") ]).
Proof. vm_compute. reflexivity. Qed.

(** X10 on the store of the twin entries: the two of them are retrieved. *)
Lemma build_vector_memory_context_bounds_on_twins :
  let w : World InMemory.DB := mkWorld [] (store_run (map add_entry twin_entries)) in
  let qa_context :=
    [ ("What is FAISS used for?", "It is a vector index.");
      ("What is FAISS used for?", "It searches embeddings by similarity.") ] in
  w = w
  /\ length qa_context <= 5
  /\ Forall (fun qa => InMemory.count_tokens (pair_text qa)
                       = Ok (pair_tokens InMemory.count_tokens qa)) qa_context
  /\ (qa_context = []
      \/ (Z.of_nat (pairs_tokens InMemory.count_tokens qa_context)
          <= MAX_VECTOR_QA_TOKENS)%Z)
  /\ Forall (fun qa => exists i,
                 _questions (vector_store w) !! i = Some (fst qa)
                 /\ _answers (vector_store w) !! i = Some (snd qa)) qa_context
  /\ (store_is_empty (vector_store w) = true -> qa_context = []).
Proof.
  apply (build_vector_memory_context_bounds InMemory.count_tokens InMemory.DB
           InMemory.embed_text "What is FAISS?"
           (mkWorld [] (store_run (map add_entry twin_entries)))
           (mkWorld [] (store_run (map add_entry twin_entries)))
           (map add_entry twin_entries)).
  - reflexivity.
  - exact (twin_entries_context []).
Defined.

(** X11 on a conversation of one exchange, with the store empty. *)
Lemma build_messages_keeps_history_order_on_greeting :
  exists front older kept copies : list Message,
    [ turn "system" SYSTEM_INSTRUCTION; turn "user" "Hi"; turn "assistant" "Hello!";
      turn "user" "What is 2+2?" ]
    = front ++ copies ++ [turn "user" "What is 2+2?"]
    /\ (front = [turn "system" SYSTEM_INSTRUCTION]
        \/ exists context,
             front = [turn "system" SYSTEM_INSTRUCTION; context]
             /\ context !! "role" = Some "system")
    /\ [ ({[ "role" := "user"; "content" := "Hi"; "timestamp" := "" ]} : Message);
         {[ "role" := "assistant"; "content" := "Hello!"; "timestamp" := "" ]} ]
       = older ++ kept
    /\ Forall2 (fun msg copy => clean_copy msg = Ok copy) kept copies
    /\ length [ turn "system" SYSTEM_INSTRUCTION; turn "user" "Hi";
                turn "assistant" "Hello!"; turn "user" "What is 2+2?" ]
       <= 3 + length [ ({[ "role" := "user"; "content" := "Hi";
                           "timestamp" := "" ]} : Message);
                       {[ "role" := "assistant"; "content" := "Hello!";
                          "timestamp" := "" ]} ]
    /\ (forall n,
          count_message_list_tokens InMemory.count_tokens
            [ ({[ "role" := "user"; "content" := "Hi";
                  "timestamp" := "" ]} : Message);
              {[ "role" := "assistant"; "content" := "Hello!";
                 "timestamp" := "" ]} ]
          = Ok n ->
          (Z.of_nat n <= MAX_HISTORY_TOKENS)%Z ->
          older = []).
Proof.
  apply (build_messages_keeps_history_order InMemory.count_tokens InMemory.DB
           InMemory.get_messages InMemory.embed_text
           "conversation-1" "What is 2+2?"
           (mkWorld
              [ ("conversation-1",
                 {[ "role" := "user"; "content" := "Hi"; "timestamp" := "" ]});
                ("conversation-1",
                 {[ "role" := "assistant"; "content" := "Hello!";
                    "timestamp" := "" ]}) ]
              store_init)
           (mkWorld
              [ ("conversation-1",
                 {[ "role" := "user"; "content" := "Hi"; "timestamp" := "" ]});
                ("conversation-1",
                 {[ "role" := "assistant"; "content" := "Hello!";
                    "timestamp" := "" ]}) ]
              store_init)).
  - vm_compute. reflexivity.
  - vm_compute. reflexivity.
Defined.

Lemma in_memory_database_appends :
  database_appends InMemory.DB InMemory.get_messages InMemory.add_message.
Proof.
  intros conversation_id role content db db' history Hadd Hget.
  unfold InMemory.add_message in Hadd. injection Hadd as <-.
  unfold InMemory.get_messages in *. injection Hget as <-.
  eexists. split; [|split].
  - unfold InMemory.DB. rewrite filter_app, map_app, filter_cons, filter_nil.
    rewrite decide_True by (apply bool_decide_pack; reflexivity).
    reflexivity.
  - reflexivity.
  - reflexivity.
Qed.

(** X13 on the table kept in memory: after the exchange [Hi], [Hello!] the
    prompt of the next question ends with the exchange and the question. *)
Lemma next_prompt_ends_with_last_exchange_on_greeting :
  exists front,
    [ turn "system" SYSTEM_INSTRUCTION; turn "user" "Hi"; turn "assistant" "Hello!";
      turn "user" "What is 2+2?" ]
    = front ++ [ turn "user" "Hi"; turn "assistant" "Hello!";
                 turn "user" "What is 2+2?" ].
Proof.
  apply (next_prompt_ends_with_last_exchange InMemory.count_tokens InMemory.DB
           InMemory.get_messages InMemory.add_message InMemory.embed_text
           "conversation-1" "Hi" "Hello!" "What is 2+2?"
           (mkWorld [] store_init)
           (mkWorld
              [ ("conversation-1",
                 {[ "role" := "user"; "content" := "Hi"; "timestamp" := "" ]});
                ("conversation-1",
                 {[ "role" := "assistant"; "content" := "Hello!";
                    "timestamp" := "" ]}) ]
              store_init)
           (mkWorld
              [ ("conversation-1",
                 {[ "role" := "user"; "content" := "Hi"; "timestamp" := "" ]});
                ("conversation-1",
                 {[ "role" := "assistant"; "content" := "Hello!";
                    "timestamp" := "" ]}) ]
              store_init)
           (Ok tt)
           [ ("conversation-1",
              {[ "role" := "user"; "content" := "Hi"; "timestamp" := "" ]}) ]
           [ ("conversation-1",
              {[ "role" := "user"; "content" := "Hi"; "timestamp" := "" ]});
             ("conversation-1",
              {[ "role" := "assistant"; "content" := "Hello!"; "timestamp" := "" ]}) ]
           [] _ 27).
  - exact in_memory_database_appends.
  - reflexivity.
  - reflexivity.
  - reflexivity.
  - vm_compute. reflexivity.
  - vm_compute. reflexivity.
  - vm_compute. reflexivity.
  - vm_compute. discriminate.
Defined.
